(** * Spot welder firmware (Arduino Nano): phase-angle triac control

    A shallow embedding of [Spot_Welder_Firmware_ino.ino].  The sketch has two
    execution contexts: the main context ([setup] once, then [loop] forever)
    and the zero-crossing interrupt handler [zeroCrossISR], which preempts the
    main context between any two of its statements and runs to completion.

    Part I  gives the machine integers and the Arduino core functions the
    sketch calls, the sketch's functions in a state-and-trace monad (their
    sequential meaning), and the interleaving machine in which the handler
    preempts the main context.
    Part II proves the properties of the firing model, of the display, of the
    handler, of a weld session and of the debounce. *)

From Stdlib Require Import ZArith List Bool Lia.
Import ListNotations.
Local Open Scope Z_scope.

(* ===================================================================== *)
(** * Part I: the program                                                 *)
(* ===================================================================== *)

(** ** Machine integers (avr-gcc on the ATmega328P)

    [int] is 16 bits, [long] 32 bits, both two's complement; [unsigned int]
    and [unsigned long] are their unsigned versions.  Values are kept in [Z]
    and every operation of the sketch is followed by the wrap-around of its
    C type. *)

Definition wrap_signed (w z : Z) : Z := (z + 2 ^ (w - 1)) mod 2 ^ w - 2 ^ (w - 1).

Definition to_int   (z : Z) : Z := wrap_signed 16 z.
Definition to_long  (z : Z) : Z := wrap_signed 32 z.
Definition to_uint  (z : Z) : Z := z mod 2 ^ 16.
Definition to_ulong (z : Z) : Z := z mod 2 ^ 32.

Definition INT_MIN : Z := - 32768.
Definition INT_MAX : Z := 32767.

(** ** The Arduino core, as far as the sketch uses it *)

Module Arduino.

(** Modelled from the spec: [map] is the Arduino core's linear rescaling
    function, which the sketch calls and does not define.  The spec describes
    it as a linear rescaling of one range onto another; the formula is the
    core's, [(x - in_min) * (out_max - out_min) / (in_max - in_min) + out_min]
    in [long] arithmetic, with C's division (rounding towards zero).  It does
    not constrain [x] to the input range. *)
Definition map (x in_min in_max out_min out_max : Z) : Z :=
  to_long
    (to_long (Z.quot (to_long (to_long (x - in_min) * to_long (out_max - out_min)))
                     (to_long (in_max - in_min)))
     + out_min).

Definition HIGH : bool := true.
Definition LOW  : bool := false.

(** Analog channels A0 and A1 of the Nano are pins 14 and 15. *)
Definition A0 : Z := 14.
Definition A1 : Z := 15.

(** Segment bits of the TM1637 display driver. *)
Definition SEG_B : Z := 2.
Definition SEG_C : Z := 4.
Definition SEG_E : Z := 16.
Definition SEG_F : Z := 32.
Definition SEG_G : Z := 64.

Inductive pin_mode := INPUT | OUTPUT | INPUT_PULLUP.
Inductive irq_mode := RISING.

End Arduino.
Import Arduino.

(** ** Hardware pin definitions and settings (lines 9-20) *)

Definition PIN_ZERO_CROSS : Z := 2.
Definition PIN_TRIAC      : Z := 3.
Definition PIN_FOOT_SW    : Z := 4.
Definition PIN_CLK        : Z := 5.
Definition PIN_DIO        : Z := 6.
Definition PIN_POT_TIME   : Z := A0.
Definition PIN_POT_POWER  : Z := A1.

Definition MIN_TIME_MS : Z := 10.
Definition MAX_TIME_MS : Z := 500.
Definition DEBOUNCE_MS : Z := 500.

(** ** State

    The global variables of the sketch (lines 26-32) and the part of the board
    the sketch talks to: the output latch of the triac pin, the level on the
    foot-switch pin, the two potentiometer samples and a clock in
    microseconds since power-on. *)

Record state : Type := mkState {
  zeroCrossDetected : bool;
  firingDelay       : Z;      (* volatile int *)
  weldingActive     : bool;   (* volatile bool *)
  setTimeVal        : Z;      (* int *)
  setPowerVal       : Z;      (* int *)
  lastWeldTime      : Z;      (* unsigned long *)
  triac             : bool;   (* level driven on PIN_TRIAC *)
  footSw            : bool;   (* level read on PIN_FOOT_SW *)
  potTime           : Z;      (* converter input on PIN_POT_TIME *)
  potPower          : Z;      (* converter input on PIN_POT_POWER *)
  clock             : Z       (* microseconds since power-on *)
}.

Definition set_firingDelay (v : Z) (s : state) : state :=
  mkState (zeroCrossDetected s) v (weldingActive s) (setTimeVal s) (setPowerVal s)
          (lastWeldTime s) (triac s) (footSw s) (potTime s) (potPower s) (clock s).

Definition set_weldingActive (b : bool) (s : state) : state :=
  mkState (zeroCrossDetected s) (firingDelay s) b (setTimeVal s) (setPowerVal s)
          (lastWeldTime s) (triac s) (footSw s) (potTime s) (potPower s) (clock s).

Definition set_setTimeVal (v : Z) (s : state) : state :=
  mkState (zeroCrossDetected s) (firingDelay s) (weldingActive s) v (setPowerVal s)
          (lastWeldTime s) (triac s) (footSw s) (potTime s) (potPower s) (clock s).

Definition set_setPowerVal (v : Z) (s : state) : state :=
  mkState (zeroCrossDetected s) (firingDelay s) (weldingActive s) (setTimeVal s) v
          (lastWeldTime s) (triac s) (footSw s) (potTime s) (potPower s) (clock s).

Definition set_lastWeldTime (v : Z) (s : state) : state :=
  mkState (zeroCrossDetected s) (firingDelay s) (weldingActive s) (setTimeVal s)
          (setPowerVal s) v (triac s) (footSw s) (potTime s) (potPower s) (clock s).

Definition set_triac (b : bool) (s : state) : state :=
  mkState (zeroCrossDetected s) (firingDelay s) (weldingActive s) (setTimeVal s)
          (setPowerVal s) (lastWeldTime s) b (footSw s) (potTime s) (potPower s) (clock s).

Definition set_inputs (a0 a1 : Z) (sw : bool) (s : state) : state :=
  mkState (zeroCrossDetected s) (firingDelay s) (weldingActive s) (setTimeVal s)
          (setPowerVal s) (lastWeldTime s) (triac s) sw a0 a1 (clock s).

Definition advance (us : Z) (s : state) : state :=
  mkState (zeroCrossDetected s) (firingDelay s) (weldingActive s) (setTimeVal s)
          (setPowerVal s) (lastWeldTime s) (triac s) (footSw s) (potTime s) (potPower s)
          (clock s + us).

(** The variables of the sketch, without the board. *)
Record globals : Type := mkGlobals {
  g_zeroCrossDetected : bool;
  g_firingDelay       : Z;
  g_weldingActive     : bool;
  g_setTimeVal        : Z;
  g_setPowerVal       : Z;
  g_lastWeldTime      : Z
}.

Definition globals_of (s : state) : globals :=
  mkGlobals (zeroCrossDetected s) (firingDelay s) (weldingActive s)
            (setTimeVal s) (setPowerVal s) (lastWeldTime s).

(** ** Observable actions

    Calls into the board and the display driver, and the stores to the two
    volatile variables shared with the interrupt handler. *)

Inductive event : Type :=
| PinMode (pin : Z) (mode : pin_mode)
| AttachInterrupt (pin : Z) (mode : irq_mode)
| DigitalWrite (pin : Z) (level : bool)
| DelayMicroseconds (us : Z)
| Delay (ms : Z)
| SetBrightness (b : Z)
| SetSegments (segs : list Z)
| ShowNumberDecEx (num : Z) (dots : Z) (leading_zero : bool)
| StoreFiringDelay (v : Z)
| StoreWeldingActive (b : bool).

(** ** The monad: state passing with a trace of the actions performed *)

Definition M (A : Type) : Type := state -> A * state * list event.

Definition ret {A : Type} (a : A) : M A := fun s => (a, s, []).

Definition bind {A B : Type} (m : M A) (f : A -> M B) : M B :=
  fun s =>
    let '(a, s1, e1) := m s in
    let '(b, s2, e2) := f a s1 in
    (b, s2, e1 ++ e2).

Declare Scope welder_scope.
Delimit Scope welder_scope with welder.
Notation "x <- m ;; k" := (bind m (fun x => k))
  (at level 61, m at next level, right associativity) : welder_scope.
Notation "m ;; k" := (bind m (fun _ => k))
  (at level 61, right associativity) : welder_scope.
Local Open Scope welder_scope.

Definition load {A : Type} (f : state -> A) : M A := fun s => (f s, s, []).
Definition modify (f : state -> state) : M unit := fun s => (tt, f s, []).
Definition emit (e : event) : M unit := fun s => (tt, s, [e]).

Definition result_state {A : Type} (r : A * state * list event) : state := snd (fst r).
Definition result_trace {A : Type} (r : A * state * list event) : list event := snd r.
Definition result_value {A : Type} (r : A * state * list event) : A := fst (fst r).

(** *** Board primitives *)

Definition pinMode (pin : Z) (mode : pin_mode) : M unit := emit (PinMode pin mode).

Definition attachInterrupt (pin : Z) (mode : irq_mode) : M unit :=
  emit (AttachInterrupt pin mode).

Definition digitalWrite (pin : Z) (level : bool) : M unit :=
  modify (fun s => if pin =? PIN_TRIAC then set_triac level s else s) ;;
  emit (DigitalWrite pin level).

Definition digitalRead (pin : Z) : M bool :=
  load (fun s => if pin =? PIN_FOOT_SW then footSw s
                 else if pin =? PIN_TRIAC then triac s else LOW).

(** The converter is a 10-bit one: a reading is in 0..1023. *)
Definition analogRead (pin : Z) : M Z :=
  load (fun s => if pin =? PIN_POT_TIME then potTime s mod 1024
                 else if pin =? PIN_POT_POWER then potPower s mod 1024 else 0).

Definition micros : M Z := load (fun s => to_ulong (clock s)).
Definition millis : M Z := load (fun s => to_ulong (clock s / 1000)).

(** In the sequential meaning a delay takes exactly its nominal time. *)
Definition delayMicroseconds (us : Z) : M unit :=
  emit (DelayMicroseconds us) ;; modify (advance us).

Definition delay (ms : Z) : M unit :=
  emit (Delay ms) ;; modify (advance (1000 * ms)).

Definition showNumberDecEx (num dots : Z) (leading_zero : bool) : M unit :=
  emit (ShowNumberDecEx num dots leading_zero).

(** *** Stores to the variables of the sketch *)

Definition store_firingDelay (v : Z) : M unit :=
  modify (set_firingDelay v) ;; emit (StoreFiringDelay v).

Definition store_weldingActive (b : bool) : M unit :=
  modify (set_weldingActive b) ;; emit (StoreWeldingActive b).

Definition store_setTimeVal (v : Z) : M unit := modify (set_setTimeVal v).
Definition store_setPowerVal (v : Z) : M unit := modify (set_setPowerVal v).
Definition store_lastWeldTime (v : Z) : M unit := modify (set_lastWeldTime v).

(** ** The sketch *)

(** Power-on: the initialisers of lines 26-32; the triac pin is not driven. *)
Definition power_on : state :=
  mkState false 0 false 0 0 0 LOW HIGH 0 0 0.

(** Lines 34-54. *)
Definition setup : M unit :=
  pinMode PIN_TRIAC OUTPUT ;;
  digitalWrite PIN_TRIAC LOW ;;
  pinMode PIN_FOOT_SW INPUT_PULLUP ;;
  pinMode PIN_ZERO_CROSS INPUT ;;
  attachInterrupt PIN_ZERO_CROSS RISING ;;
  emit (SetBrightness 0x0f) ;;
  emit (SetSegments [ Z.lor SEG_B (Z.lor SEG_C (Z.lor SEG_E (Z.lor SEG_F SEG_G)));
                      Z.lor SEG_E SEG_F; 0; 0 ]) ;;
  delay 1000.

(** Lines 57-76.  [firingDelay] is volatile and is read twice; the argument
    of [delayMicroseconds] is an [unsigned int]. *)
Definition zeroCrossISR : M unit :=
  active <- load weldingActive ;;
  if active then
    d <- load firingDelay ;;
    (if d >? 0
     then d' <- load firingDelay ;; delayMicroseconds (to_uint d')
     else ret tt) ;;
    digitalWrite PIN_TRIAC HIGH ;;
    delayMicroseconds 50 ;;
    digitalWrite PIN_TRIAC LOW
  else ret tt.

(** Line 105, right-hand side: the firing delay of a power setting. *)
Definition computeFiring (powerPercent : Z) : Z :=
  to_int (map powerPercent 100 10 100 8500).

(** Lines 95 and 99, right-hand sides. *)
Definition timeLevelOf (rawTime : Z) : Z := to_int (map rawTime 0 1023 1 50).
Definition powerPercentOf (rawPower : Z) : Z := to_int (map rawPower 0 1023 10 100).

(** Lines 91-106. *)
Definition readPotentiometers : M unit :=
  rawTime <- analogRead PIN_POT_TIME ;;
  store_setTimeVal (timeLevelOf rawTime) ;;
  rawPower <- analogRead PIN_POT_POWER ;;
  store_setPowerVal (powerPercentOf rawPower) ;;
  p <- load setPowerVal ;;
  store_firingDelay (computeFiring p).

(** Line 111, right-hand side, in [int] arithmetic. *)
Definition dispNumOf (timeVal powerVal : Z) : Z :=
  to_int (to_int (timeVal * 100) + powerVal).

(** Lines 108-113; the dots argument is [0b01000000]. *)
Definition updateDisplay : M unit :=
  t <- load setTimeVal ;;
  p <- load setPowerVal ;;
  showNumberDecEx (dispNumOf t p) 0x40 true.

(** Line 118, right-hand side: an [int] product converted to
    [unsigned long]. *)
Definition weldDurationOf (timeVal : Z) : Z := to_ulong (to_int (timeVal * 20)).

(** Lines 115-126. *)
Definition performWeld : M unit :=
  t <- load setTimeVal ;;
  let weldDuration := weldDurationOf t in
  store_weldingActive true ;;
  delay weldDuration ;;
  store_weldingActive false ;;
  digitalWrite PIN_TRIAC LOW.

(** Line 84, the condition: unsigned subtraction compared with
    [DEBOUNCE_MS]. *)
Definition debounce_elapsed (now last : Z) : bool :=
  to_ulong (now - last) >? to_ulong DEBOUNCE_MS.

(** Lines 78-89. *)
Definition loop : M unit :=
  readPotentiometers ;;
  updateDisplay ;;
  sw <- digitalRead PIN_FOOT_SW ;;
  if Bool.eqb sw LOW then
    now <- millis ;;
    last <- load lastWeldTime ;;
    if debounce_elapsed now last then
      performWeld ;;
      now' <- millis ;;
      store_lastWeldTime now'
    else ret tt
  else ret tt.

(** ** The interleaving machine

    The main context executes the statements of [loop] one at a time; a rising
    edge on [PIN_ZERO_CROSS] suspends it and starts [zeroCrossISR], which then
    executes its own statements until it returns (interrupts stay disabled
    inside a handler, so neither the main context nor a second handler runs
    meanwhile; an edge that arrives during the handler is served after its
    return, which is a [ZeroCross] input at that point).  Time passes between
    any two statements.  Program points are named after the source line of the
    statement about to be executed.  A statement is one step: a 16-bit
    variable is read and written as a whole. *)

Inductive isr_pc : Type :=
| I58    (* if (weldingActive) *)
| I67    (* if (firingDelay > 0) *)
| I68    (* delayMicroseconds(firingDelay) *)
| I72    (* digitalWrite(PIN_TRIAC, HIGH) *)
| I73    (* delayMicroseconds(50) *)
| I74.   (* digitalWrite(PIN_TRIAC, LOW) *)

Inductive main_pc : Type :=
| L95                                (* setTimeVal = map(analogRead(..), ..) *)
| L99                                (* setPowerVal = map(analogRead(..), ..) *)
| L105                               (* firingDelay = map(setPowerVal, ..) *)
| L111                               (* updateDisplay *)
| L83                                (* if (digitalRead(PIN_FOOT_SW) == LOW) *)
| L84                                (* if (millis() - lastWeldTime > DEBOUNCE_MS) *)
| L118                               (* performWeld: weldDuration = setTimeVal * 20 *)
| L120 (weldDuration : Z)            (* weldingActive = true *)
| L121 (weldDuration : Z)            (* delay(weldDuration): entry *)
| L121_wait (weldDuration since : Z) (* delay(weldDuration): waiting *)
| L122                               (* weldingActive = false *)
| L125                               (* digitalWrite(PIN_TRIAC, LOW) *)
| L86.                               (* lastWeldTime = millis() *)

(** One statement of the handler; [None] is the return. *)
Definition isr_step (p : isr_pc) : M (option isr_pc) :=
  match p with
  | I58 => active <- load weldingActive ;;
           ret (if active then Some I67 else None)
  | I67 => d <- load firingDelay ;;
           ret (Some (if d >? 0 then I68 else I72))
  | I68 => d <- load firingDelay ;;
           delayMicroseconds (to_uint d) ;;
           ret (Some I72)
  | I72 => digitalWrite PIN_TRIAC HIGH ;; ret (Some I73)
  | I73 => delayMicroseconds 50 ;; ret (Some I74)
  | I74 => digitalWrite PIN_TRIAC LOW ;; ret None
  end.

(** One statement of the main context.  Inside [delay] the main context waits
    until the clock has advanced by the duration; the handler runs
    meanwhile. *)
Definition main_step (p : main_pc) : M main_pc :=
  match p with
  | L95 => rawTime <- analogRead PIN_POT_TIME ;;
           store_setTimeVal (timeLevelOf rawTime) ;;
           ret L99
  | L99 => rawPower <- analogRead PIN_POT_POWER ;;
           store_setPowerVal (powerPercentOf rawPower) ;;
           ret L105
  | L105 => p <- load setPowerVal ;;
            store_firingDelay (computeFiring p) ;;
            ret L111
  | L111 => updateDisplay ;; ret L83
  | L83 => sw <- digitalRead PIN_FOOT_SW ;;
           ret (if Bool.eqb sw LOW then L84 else L95)
  | L84 => now <- millis ;;
           last <- load lastWeldTime ;;
           ret (if debounce_elapsed now last then L118 else L95)
  | L118 => t <- load setTimeVal ;;
            ret (L120 (weldDurationOf t))
  | L120 d => store_weldingActive true ;; ret (L121 d)
  | L121 d => emit (Delay d) ;;
              since <- load clock ;;
              ret (L121_wait d since)
  | L121_wait d since =>
      now <- load clock ;;
      ret (if now - since >=? 1000 * d then L122 else L121_wait d since)
  | L122 => store_weldingActive false ;; ret L125
  | L125 => digitalWrite PIN_TRIAC LOW ;; ret L86
  | L86 => now <- millis ;;
           store_lastWeldTime now ;;
           ret L95
  end.

Record machine : Type := mkMachine {
  mem : state;
  pc  : main_pc;               (* next statement of the main context *)
  isr : option isr_pc;         (* next statement of the handler, when it runs *)
  log : list (Z * event)       (* actions so far, latest first, with their time *)
}.

Inductive input : Type :=
| Exec                              (* the running context executes a statement *)
| ZeroCross                         (* rising edge on PIN_ZERO_CROSS *)
| Elapse (us : N)                   (* time passes *)
| Sense (a0 a1 : Z) (sw : bool).    (* the operator moves a control *)

Definition stamp (t : Z) (evs : list event) : list (Z * event) :=
  List.map (fun e => (t, e)) evs.

Definition record (t : Z) (evs : list event) (l : list (Z * event)) : list (Z * event) :=
  rev (stamp t evs) ++ l.

Definition step (i : input) (m : machine) : machine :=
  match i with
  | Elapse us => mkMachine (advance (Z.of_N us) (mem m)) (pc m) (isr m) (log m)
  | Sense a0 a1 sw => mkMachine (set_inputs a0 a1 sw (mem m)) (pc m) (isr m) (log m)
  | ZeroCross =>
      match isr m with
      | None => mkMachine (mem m) (pc m) (Some I58) (log m)
      | Some _ => m
      end
  | Exec =>
      match isr m with
      | Some p =>
          let '(next, s, evs) := isr_step p (mem m) in
          mkMachine s (pc m) next (record (clock (mem m)) evs (log m))
      | None =>
          let '(next, s, evs) := main_step (pc m) (mem m) in
          mkMachine s next None (record (clock (mem m)) evs (log m))
      end
  end.

Definition run (inputs : list input) (m : machine) : machine :=
  fold_left (fun m i => step i m) inputs m.

(** The machine when [setup] has returned and [loop] is about to be called
    for the first time. *)
Definition boot : machine :=
  let r := setup power_on in
  mkMachine (result_state r) L95 None (record 0 (result_trace r) []).

Definition reachable (m : machine) : Prop := exists inputs, m = run inputs boot.

(** The handler is between its write of HIGH and its write of LOW. *)
Definition in_pulse (m : machine) : bool :=
  match isr m with
  | Some I73 | Some I74 => true
  | _ => false
  end.

(** The main context is at a statement of [loop] outside [performWeld]
    and before the debounce test has passed. *)
Definition idle (p : main_pc) : bool :=
  match p with
  | L95 | L99 | L105 | L111 | L83 | L84 => true
  | _ => false
  end.

(** Times at which a weld session started (the flag was set) and ended (the
    flag was cleared), read off the log. *)
Definition session_starts (l : list (Z * event)) : list Z :=
  List.map fst (filter (fun te => match snd te with
                                  | StoreWeldingActive true => true
                                  | _ => false
                                  end) l).

Definition session_ends (l : list (Z * event)) : list Z :=
  List.map fst (filter (fun te => match snd te with
                                  | StoreWeldingActive false => true
                                  | _ => false
                                  end) l).

(** Every session start in the log is later than every earlier session end
    by more than [gap] microseconds. *)
Fixpoint debounced (gap : Z) (l : list (Z * event)) : Prop :=
  match l with
  | [] => True
  | (t, StoreWeldingActive true) :: older =>
      (forall e, In e (session_ends older) -> t - e > gap) /\ debounced gap older
  | _ :: older => debounced gap older
  end.

(** Total time the handler spends on one invocation from a given state. *)
Definition isr_duration (s : state) : Z :=
  clock (result_state (zeroCrossISR s)) - clock s.

Definition HALF_CYCLE_US : Z := 10000.

(** The clamp the spec asks for in front of the firing model. *)
Definition clamp (lo hi x : Z) : Z := Z.max lo (Z.min hi x).

(** In the dots argument of the display driver's [showNumberDecEx], bit 6 is
    the colon of a display that has one ([0b01000000]). *)
Definition colon_enabled (dots : Z) : bool := Z.testbit dots 6.

Arguments to_int : simpl never.
Arguments to_long : simpl never.
Arguments to_uint : simpl never.
Arguments to_ulong : simpl never.
Arguments computeFiring : simpl never.
Arguments timeLevelOf : simpl never.
Arguments powerPercentOf : simpl never.
Arguments dispNumOf : simpl never.
Arguments weldDurationOf : simpl never.
Arguments debounce_elapsed : simpl never.

(** ** Invariants of the machine *)

(** The triac pin is high only inside the handler's pulse, and the handler is
    past its test of the flag only while the flag is set. *)
Definition pulse_inv (m : machine) : Prop :=
  match isr m with
  | None | Some I58 => triac (mem m) = false
  | Some I67 | Some I68 | Some I72 => weldingActive (mem m) = true /\ triac (mem m) = false
  | Some I73 | Some I74 => weldingActive (mem m) = true
  end.

(** The flag is set exactly while the main context is between the store of
    line 120 and the store of line 122. *)
Definition armed (p : main_pc) : bool :=
  match p with
  | L121 _ | L121_wait _ _ | L122 => true
  | _ => false
  end.

Definition flag_inv (m : machine) : Prop := weldingActive (mem m) = armed (pc m).

(** What holds at the end of [performWeld], from the store of line 122 on. *)
Definition weld_exit_inv (m : machine) : Prop :=
  match pc m with
  | L125 => weldingActive (mem m) = false
  | L86 => weldingActive (mem m) = false /\ triac (mem m) = false /\
           (isr m = None \/ isr m = Some I58)
  | _ => True
  end.

(** Bounds on the delays. *)
Definition delay_event_ok (e : event) : Prop :=
  match e with
  | StoreFiringDelay v => 100 <= v <= 8500
  | DelayMicroseconds us => 0 <= us <= 8500
  | _ => True
  end.

(** Settings that [readPotentiometers] has stored by the time the main
    context is at a program point. *)
Definition time_set (p : main_pc) : bool :=
  match p with L95 => false | _ => true end.

Definition power_set (p : main_pc) : bool :=
  match p with L95 | L99 => false | _ => true end.

Definition delay_set (p : main_pc) : bool :=
  match p with L95 | L99 | L105 => false | _ => true end.

Definition delay_inv (m : machine) : Prop :=
  (time_set (pc m) = true -> 1 <= setTimeVal (mem m) <= 50) /\
  (power_set (pc m) = true -> 10 <= setPowerVal (mem m) <= 100) /\
  (delay_set (pc m) = true -> 100 <= firingDelay (mem m) <= 8500) /\
  0 <= firingDelay (mem m) <= 8500 /\
  Forall (fun te => delay_event_ok (snd te)) (log m).

(** Debounce: [lastWeldTime] holds the millisecond count of an instant
    [stamped] that is not before the end of any session; once the test of
    line 84 has passed, every session end is more than the debounce time
    ago. *)
Definition DEBOUNCE_US : Z := 1000 * DEBOUNCE_MS.

Definition passed_debounce (p : main_pc) : bool :=
  match p with
  | L118 | L120 _ => true
  | _ => false
  end.

Definition debounce_inv (m : machine) : Prop :=
  Forall (fun te => fst te <= clock (mem m)) (log m) /\
  debounced DEBOUNCE_US (log m) /\
  exists stamped : Z,
    lastWeldTime (mem m) = to_ulong (stamped / 1000) /\
    stamped <= clock (mem m) /\
    (idle (pc m) = true ->
     forall e, In e (session_ends (log m)) -> e <= stamped) /\
    (passed_debounce (pc m) = true ->
     forall e, In e (session_ends (log m)) -> clock (mem m) - e > DEBOUNCE_US).

(** The actions of the handler: the triac pin and busy waiting. *)
Definition pulse_event (e : event) : Prop :=
  match e with
  | DigitalWrite pin _ => pin = PIN_TRIAC
  | DelayMicroseconds _ => True
  | _ => False
  end.

(** ** Sessions in a trace and in the log *)

(** Number of sessions started in a trace. *)
Definition session_count (tr : list event) : nat :=
  length (filter (fun e => match e with
                           | StoreWeldingActive true => true
                           | _ => false
                           end) tr).

(** Start time of the session that is open at the end of a log, if one is:
    the latest store to the flag is a store of [true]. *)
Fixpoint open_session (l : list (Z * event)) : option Z :=
  match l with
  | [] => None
  | (t, StoreWeldingActive true) :: _ => Some t
  | (_, StoreWeldingActive false) :: _ => None
  | _ :: older => open_session older
  end.

(** Argument of the latest call of [delay] in a log. *)
Fixpoint last_delay (l : list (Z * event)) : option Z :=
  match l with
  | [] => None
  | (_, Delay d) :: _ => Some d
  | _ :: older => last_delay older
  end.

(** Sessions do not nest, and each one ends no earlier than the duration of
    the [delay] it called after its start, a duration of 20 to 1000 ms. *)
Fixpoint sessions_timed (l : list (Z * event)) : Prop :=
  match l with
  | [] => True
  | (_, StoreWeldingActive true) :: older =>
      open_session older = None /\ sessions_timed older
  | (t, StoreWeldingActive false) :: older =>
      (exists s d, open_session older = Some s /\ last_delay older = Some d /\
                   20 <= d <= 1000 /\ t - s >= 1000 * d) /\
      sessions_timed older
  | _ :: older => sessions_timed older
  end.

(** A pin is raised only inside a session, and the firing delay is stored
    only outside. *)
Fixpoint quiet_outside_sessions (l : list (Z * event)) : Prop :=
  match l with
  | [] => True
  | (_, DigitalWrite _ true) :: older =>
      (exists s, open_session older = Some s) /\ quiet_outside_sessions older
  | (_, StoreFiringDelay _) :: older =>
      open_session older = None /\ quiet_outside_sessions older
  | _ :: older => quiet_outside_sessions older
  end.

Definition session_inv (m : machine) : Prop :=
  sessions_timed (log m) /\
  quiet_outside_sessions (log m) /\
  (weldingActive (mem m) = false -> open_session (log m) = None) /\
  match pc m with
  | L120 d => 20 <= d <= 1000
  | L121 d =>
      20 <= d <= 1000 /\
      exists s, open_session (log m) = Some s /\ s <= clock (mem m)
  | L121_wait d since =>
      20 <= d <= 1000 /\ last_delay (log m) = Some d /\
      exists s, open_session (log m) = Some s /\ s <= since
  | L122 =>
      exists s d, open_session (log m) = Some s /\ last_delay (log m) = Some d /\
                  20 <= d <= 1000 /\ clock (mem m) - s >= 1000 * d
  | _ => True
  end.

(** What the display is sent. *)
Definition display_event_ok (e : event) : Prop :=
  match e with
  | ShowNumberDecEx num dots leading_zero =>
      110 <= num <= 5100 /\ colon_enabled dots = true /\ leading_zero = true
  | _ => True
  end.

Definition display_inv (m : machine) : Prop :=
  Forall (fun te => display_event_ok (snd te)) (log m).

(** All the invariants of the machine together. *)
Definition machine_inv (m : machine) : Prop :=
  pulse_inv m /\ flag_inv m /\ delay_inv m /\ session_inv m.

(* ===================================================================== *)
(** * Part II: properties                                                 *)
(* ===================================================================== *)

(** In conversions, reduce the accesses to the state before the arithmetic
    of the sketch. *)
Strategy 100 [timeLevelOf powerPercentOf computeFiring dispNumOf weldDurationOf
              debounce_elapsed to_ulong to_uint to_int to_long].

(** ** Machine integers *)

Lemma to_long_small (z : Z) : - 2147483648 <= z <= 2147483647 -> to_long z = z.
Proof.
  intros Hz. unfold to_long, wrap_signed.
  change (2 ^ (32 - 1)) with 2147483648. change (2 ^ 32) with 4294967296.
  rewrite Z.mod_small; lia.
Qed.

Lemma to_int_small (z : Z) : INT_MIN <= z <= INT_MAX -> to_int z = z.
Proof.
  unfold INT_MIN, INT_MAX. intros Hz. unfold to_int, wrap_signed.
  change (2 ^ (16 - 1)) with 32768. change (2 ^ 16) with 65536.
  rewrite Z.mod_small; lia.
Qed.

Lemma to_int_range (z : Z) : INT_MIN <= to_int z <= INT_MAX.
Proof.
  unfold INT_MIN, INT_MAX, to_int, wrap_signed.
  change (2 ^ (16 - 1)) with 32768. change (2 ^ 16) with 65536.
  pose proof (Z.mod_pos_bound (z + 32768) 65536). lia.
Qed.

Lemma to_uint_small (z : Z) : 0 <= z <= 65535 -> to_uint z = z.
Proof. intros Hz. unfold to_uint. change (2 ^ 16) with 65536. rewrite Z.mod_small; lia. Qed.

Lemma to_ulong_small (z : Z) : 0 <= z <= 4294967295 -> to_ulong z = z.
Proof. intros Hz. unfold to_ulong. change (2 ^ 32) with 4294967296. rewrite Z.mod_small; lia. Qed.

(** Unsigned subtraction never overstates a non-negative difference. *)
Lemma to_ulong_sub_le (a b : Z) : b <= a -> to_ulong (a - to_ulong b) <= a - b.
Proof.
  intros Hab. unfold to_ulong. rewrite Zminus_mod_idemp_r.
  apply Z.mod_le; [lia | reflexivity].
Qed.

(** ** The Arduino [map] on the three ranges of the sketch *)

(** [map] without overflow is the plain formula. *)
Lemma map_exact (x a b c d : Z) :
  - 2147483648 <= x - a <= 2147483647 ->
  - 2147483648 <= d - c <= 2147483647 ->
  - 2147483648 <= b - a <= 2147483647 ->
  - 2147483648 <= (x - a) * (d - c) <= 2147483647 ->
  - 2147483648 <= Z.quot ((x - a) * (d - c)) (b - a) <= 2147483647 ->
  - 2147483648 <= Z.quot ((x - a) * (d - c)) (b - a) + c <= 2147483647 ->
  map x a b c d = Z.quot ((x - a) * (d - c)) (b - a) + c.
Proof.
  intros H1 H2 H3 H4 H5 H6. unfold map.
  rewrite (to_long_small (x - a)) by assumption.
  rewrite (to_long_small (d - c)) by assumption.
  rewrite (to_long_small (b - a)) by assumption.
  rewrite (to_long_small ((x - a) * (d - c))) by assumption.
  rewrite (to_long_small (Z.quot _ _)) by assumption.
  apply to_long_small; assumption.
Qed.

Lemma timeLevelOf_exact (raw : Z) :
  0 <= raw <= 1023 -> timeLevelOf raw = raw * 49 / 1023 + 1.
Proof.
  intros Hr. unfold timeLevelOf.
  assert (Hq : Z.quot ((raw - 0) * (50 - 1)) (1023 - 0) = raw * 49 / 1023).
  { rewrite Z.quot_div_nonneg by lia. f_equal; lia. }
  assert (Hb : 0 <= raw * 49 / 1023 <= 49).
  { split; [apply Z.div_pos; lia | apply Z.div_le_upper_bound; lia]. }
  rewrite map_exact; rewrite ?Hq; try lia.
  apply to_int_small. unfold INT_MIN, INT_MAX. lia.
Qed.

Lemma powerPercentOf_exact (raw : Z) :
  0 <= raw <= 1023 -> powerPercentOf raw = raw * 90 / 1023 + 10.
Proof.
  intros Hr. unfold powerPercentOf.
  assert (Hq : Z.quot ((raw - 0) * (100 - 10)) (1023 - 0) = raw * 90 / 1023).
  { rewrite Z.quot_div_nonneg by lia. f_equal; lia. }
  assert (Hb : 0 <= raw * 90 / 1023 <= 90).
  { split; [apply Z.div_pos; lia | apply Z.div_le_upper_bound; lia]. }
  rewrite map_exact; rewrite ?Hq; try lia.
  apply to_int_small. unfold INT_MIN, INT_MAX. lia.
Qed.

Lemma timeLevelOf_range (raw : Z) : 0 <= raw <= 1023 -> 1 <= timeLevelOf raw <= 50.
Proof.
  intros Hr. rewrite timeLevelOf_exact by assumption.
  assert (0 <= raw * 49 / 1023 <= 49).
  { split; [apply Z.div_pos; lia | apply Z.div_le_upper_bound; lia]. }
  lia.
Qed.

Lemma powerPercentOf_range (raw : Z) : 0 <= raw <= 1023 -> 10 <= powerPercentOf raw <= 100.
Proof.
  intros Hr. rewrite powerPercentOf_exact by assumption.
  assert (0 <= raw * 90 / 1023 <= 90).
  { split; [apply Z.div_pos; lia | apply Z.div_le_upper_bound; lia]. }
  lia.
Qed.

(** The firing delay of an in-range power setting: the line through
    (100, 100) and (10, 8500), rounded down. *)
Lemma computeFiring_exact (p : Z) :
  10 <= p <= 100 -> computeFiring p = (100 - p) * 8400 / 90 + 100.
Proof.
  intros Hp. unfold computeFiring.
  assert (Hq : Z.quot ((p - 100) * (8500 - 100)) (10 - 100) = (100 - p) * 8400 / 90).
  { replace ((p - 100) * (8500 - 100)) with (- ((100 - p) * 8400)) by lia.
    change (10 - 100) with (- (90)).
    rewrite Z.quot_opp_opp by lia. apply Z.quot_div_nonneg; lia. }
  assert (Hb : 0 <= (100 - p) * 8400 / 90 <= 8400).
  { split; [apply Z.div_pos; lia | apply Z.div_le_upper_bound; lia]. }
  rewrite map_exact; rewrite ?Hq; try lia.
  apply to_int_small. unfold INT_MIN, INT_MAX. lia.
Qed.

Lemma computeFiring_range (p : Z) : 10 <= p <= 100 -> 100 <= computeFiring p <= 8500.
Proof.
  intros Hp. rewrite computeFiring_exact by assumption.
  assert (0 <= (100 - p) * 8400 / 90 <= 8400).
  { split; [apply Z.div_pos; lia | apply Z.div_le_upper_bound; lia]. }
  lia.
Qed.

Lemma analogRead_range (pin : Z) (s : state) :
  0 <= result_value (analogRead pin s) <= 1023.
Proof.
  unfold analogRead, load, result_value. simpl.
  destruct (pin =? PIN_POT_TIME).
  - pose proof (Z.mod_pos_bound (potTime s) 1024). lia.
  - destruct (pin =? PIN_POT_POWER).
    + pose proof (Z.mod_pos_bound (potPower s) 1024). lia.
    + lia.
Qed.

(** ** The sketch's functions, run sequentially *)

Lemma readPotentiometers_run (s : state) :
  readPotentiometers s =
  (tt,
   set_firingDelay (computeFiring (powerPercentOf (potPower s mod 1024)))
     (set_setPowerVal (powerPercentOf (potPower s mod 1024))
        (set_setTimeVal (timeLevelOf (potTime s mod 1024)) s)),
   [StoreFiringDelay (computeFiring (powerPercentOf (potPower s mod 1024)))]).
Proof. reflexivity. Qed.

Lemma updateDisplay_run (s : state) :
  updateDisplay s =
  (tt, s, [ShowNumberDecEx (dispNumOf (setTimeVal s) (setPowerVal s)) 0x40 true]).
Proof. reflexivity. Qed.

Lemma performWeld_run (s : state) :
  performWeld s =
  (tt,
   set_triac LOW
     (set_weldingActive false
        (advance (1000 * weldDurationOf (setTimeVal s)) (set_weldingActive true s))),
   [StoreWeldingActive true; Delay (weldDurationOf (setTimeVal s));
    StoreWeldingActive false; DigitalWrite PIN_TRIAC LOW]).
Proof. reflexivity. Qed.

Lemma zeroCrossISR_inactive (s : state) :
  weldingActive s = false -> zeroCrossISR s = (tt, s, []).
Proof. intros Ha. unfold zeroCrossISR, bind, load. rewrite Ha. reflexivity. Qed.

Lemma zeroCrossISR_active (s : state) :
  weldingActive s = true ->
  zeroCrossISR s =
  if firingDelay s >? 0 then
    (tt, set_triac LOW (advance 50 (set_triac HIGH (advance (to_uint (firingDelay s)) s))),
     [DelayMicroseconds (to_uint (firingDelay s)); DigitalWrite PIN_TRIAC HIGH;
      DelayMicroseconds 50; DigitalWrite PIN_TRIAC LOW])
  else
    (tt, set_triac LOW (advance 50 (set_triac HIGH s)),
     [DigitalWrite PIN_TRIAC HIGH; DelayMicroseconds 50; DigitalWrite PIN_TRIAC LOW]).
Proof.
  intros Ha. unfold zeroCrossISR, bind, load. rewrite Ha.
  destruct (firingDelay s >? 0); reflexivity.
Qed.

(** ** The firing model *)

Section FiringModel.

(** C3: the firing delay at the documented points.  The sketch maps a power
    of 10 to 8500 us, and a power of 100 to 100 us (the lower end of the
    output range on line 105 is 100, not 0); halfway, 55 gives 4300 us.
    With the power potentiometer at its top (reading 1023) the delay stored
    for the handler is 100 us, and an active handler then waits 100 us
    before it raises the triac pin. *)
Theorem computeFiring_documented_points :
  computeFiring 10 = 8500 /\
  computeFiring 100 = 100 /\
  computeFiring 55 = 4300 /\
  firingDelay (result_state (readPotentiometers (set_inputs 0 1023 HIGH power_on))) = 100 /\
  result_trace
    (zeroCrossISR
       (set_weldingActive true
          (result_state (readPotentiometers (set_inputs 0 1023 HIGH power_on))))) =
  [DelayMicroseconds 100; DigitalWrite PIN_TRIAC HIGH;
   DelayMicroseconds 50; DigitalWrite PIN_TRIAC LOW].
Proof. repeat split; vm_compute; reflexivity. Qed.

(** C8: over [10,100] the firing delay does not increase when the power
    does. *)
Theorem computeFiring_monotone (p1 p2 : Z) :
  10 <= p1 -> p1 <= p2 -> p2 <= 100 -> computeFiring p2 <= computeFiring p1.
Proof.
  intros H1 H12 H2.
  rewrite !computeFiring_exact by lia.
  apply Z.add_le_mono_r.
  apply Z.div_le_mono; lia.
Qed.

Lemma computeFiring_monotone_witness : computeFiring 100 <= computeFiring 10.
Proof. apply (computeFiring_monotone 10 100); lia. Defined.

(** Outside [10,100] the line is extrapolated: nothing clamps. *)
Lemma computeFiring_no_clamp (p : Z) :
  INT_MIN <= p <= INT_MAX ->
  computeFiring p = to_int (Z.quot ((p - 100) * 8400) (- 90) + 100).
Proof.
  unfold INT_MIN, INT_MAX. intros Hp. unfold computeFiring. f_equal.
  assert (Hq : - 3100000 <= Z.quot ((p - 100) * (8500 - 100)) (10 - 100) <= 3100000).
  { change (8500 - 100) with 8400. change (10 - 100) with (- 90).
    Z.quot_rem_to_equations. lia. }
  rewrite map_exact; try lia. reflexivity.
Qed.

(** C7, as stated, fails: the firing delay of 150 is not that of the
    nearest in-range power, 100. *)
Lemma computeFiring_150_not_clamped :
  computeFiring 150 = - 4566 /\
  computeFiring (clamp 10 100 150) = 100 /\
  computeFiring 150 <> computeFiring (clamp 10 100 150).
Proof. repeat split; vm_compute; congruence. Qed.

(** C7, amended: no clamp is applied by the firing-delay computation, and
    none is needed on the values it receives.  Every reading of the 10-bit
    converter is mapped to a power within [10,100], where the clamp is the
    identity; so the delay stored by [readPotentiometers] is the delay of
    the clamped power. *)
Theorem firing_input_in_range (raw : Z) :
  0 <= raw <= 1023 ->
  10 <= powerPercentOf raw <= 100 /\
  clamp 10 100 (powerPercentOf raw) = powerPercentOf raw /\
  forall s, potPower s mod 1024 = raw ->
    setPowerVal (result_state (readPotentiometers s)) = powerPercentOf raw /\
    firingDelay (result_state (readPotentiometers s)) =
      computeFiring (clamp 10 100 (powerPercentOf raw)).
Proof.
  intros Hr. pose proof (powerPercentOf_range raw Hr) as Hp.
  assert (Hc : clamp 10 100 (powerPercentOf raw) = powerPercentOf raw)
    by (unfold clamp; lia).
  repeat split; try lia.
  - rewrite readPotentiometers_run. simpl. congruence.
  - rewrite readPotentiometers_run, Hc. simpl. congruence.
Qed.

Lemma firing_input_in_range_witness :
  10 <= powerPercentOf 512 <= 100 /\
  firingDelay (result_state (readPotentiometers (set_inputs 0 512 HIGH power_on))) =
    computeFiring (clamp 10 100 (powerPercentOf 512)).
Proof.
  destruct (firing_input_in_range 512 ltac:(lia)) as (Hp & _ & Hs).
  split; [exact Hp |].
  apply (Hs (set_inputs 0 512 HIGH power_on)). reflexivity.
Defined.

End FiringModel.


(** ** Session duration and display *)

Section Settings.

Lemma readPotentiometers_ranges (s : state) :
  1 <= setTimeVal (result_state (readPotentiometers s)) <= 50 /\
  10 <= setPowerVal (result_state (readPotentiometers s)) <= 100 /\
  100 <= firingDelay (result_state (readPotentiometers s)) <= 8500.
Proof.
  rewrite readPotentiometers_run. simpl.
  pose proof (Z.mod_pos_bound (potTime s) 1024 ltac:(lia)) as Ht.
  pose proof (Z.mod_pos_bound (potPower s) 1024 ltac:(lia)) as Hp.
  pose proof (timeLevelOf_range (potTime s mod 1024) ltac:(lia)).
  pose proof (powerPercentOf_range (potPower s mod 1024) ltac:(lia)) as Hpp.
  pose proof (computeFiring_range _ Hpp).
  repeat split; lia.
Qed.

Lemma weldDurationOf_exact (t : Z) : 1 <= t <= 50 -> weldDurationOf t = t * 20.
Proof.
  intros Ht. unfold weldDurationOf.
  rewrite to_int_small by (unfold INT_MIN, INT_MAX; lia).
  apply to_ulong_small; lia.
Qed.

(** C5: the time level that [readPotentiometers] stores is in [1,50], and
    for every time level in [1,50] the session started by [performWeld]
    lasts [timeLevel * 20] milliseconds, which is between 20 and 1000: that
    is the argument of its one call of [delay], made while the flag is
    set. *)
Theorem weld_duration (s : state) :
  1 <= setTimeVal (result_state (readPotentiometers s)) <= 50 /\
  (1 <= setTimeVal s <= 50 ->
   weldDurationOf (setTimeVal s) = setTimeVal s * 20 /\
   20 <= setTimeVal s * 20 <= 1000 /\
   result_trace (performWeld s) =
     [StoreWeldingActive true; Delay (setTimeVal s * 20);
      StoreWeldingActive false; DigitalWrite PIN_TRIAC LOW] /\
   clock (result_state (performWeld s)) = clock s + 1000 * (setTimeVal s * 20)).
Proof.
  split; [exact (proj1 (readPotentiometers_ranges s)) |].
  intros Ht. pose proof (weldDurationOf_exact _ Ht) as Hd.
  rewrite performWeld_run. unfold result_trace, result_state. simpl.
  rewrite Hd. repeat split; lia.
Qed.

Lemma weld_duration_witness :
  weldDurationOf 10 = 200 /\
  result_trace (performWeld (set_setTimeVal 10 power_on)) =
    [StoreWeldingActive true; Delay 200;
     StoreWeldingActive false; DigitalWrite PIN_TRIAC LOW].
Proof.
  destruct (weld_duration (set_setTimeVal 10 power_on)) as [_ H].
  destruct (H ltac:(simpl; lia)) as (Hd & _ & Ht & _).
  split; [exact Hd | exact Ht].
Defined.

Lemma dispNumOf_exact (t p : Z) :
  INT_MIN <= t * 100 + p <= INT_MAX -> dispNumOf t p = t * 100 + p.
Proof.
  intros H. transitivity (to_int (t * 100 + p)); [| apply to_int_small; assumption].
  unfold dispNumOf, to_int, wrap_signed. f_equal.
  replace ((t * 100 + 2 ^ (16 - 1)) mod 2 ^ 16 - 2 ^ (16 - 1) + p + 2 ^ (16 - 1))
    with ((t * 100 + 2 ^ (16 - 1)) mod 2 ^ 16 + p) by lia.
  rewrite Zplus_mod_idemp_l. f_equal. lia.
Qed.

(** C9: [updateDisplay] makes one call to the display,
    [showNumberDecEx (timeLevel * 100 + powerPercent)], with the colon bit
    of the dots argument set (and leading zeros on), and changes nothing
    else.  This holds for every pair of values for which the product and the
    sum of line 111 fit its 16-bit [int], so for every time level in [1,50]
    and power in [10,100]. *)
Theorem updateDisplay_shows_time_and_power (s : state) :
  INT_MIN <= setTimeVal s * 100 <= INT_MAX ->
  INT_MIN <= setTimeVal s * 100 + setPowerVal s <= INT_MAX ->
  exists dots,
    updateDisplay s =
      (tt, s, [ShowNumberDecEx (setTimeVal s * 100 + setPowerVal s) dots true]) /\
    colon_enabled dots = true.
Proof.
  intros _ H. exists 0x40. split; [| reflexivity].
  rewrite updateDisplay_run, dispNumOf_exact by assumption. reflexivity.
Qed.

Lemma updateDisplay_shows_time_and_power_witness :
  exists dots,
    updateDisplay (set_setPowerVal 99 (set_setTimeVal 10 power_on)) =
      (tt, set_setPowerVal 99 (set_setTimeVal 10 power_on),
       [ShowNumberDecEx 1099 dots true]) /\
    colon_enabled dots = true.
Proof.
  apply (updateDisplay_shows_time_and_power
           (set_setPowerVal 99 (set_setTimeVal 10 power_on)));
    unfold INT_MIN, INT_MAX; simpl; lia.
Defined.

(** The settings of the data model never overflow the display number. *)
Lemma settings_fit_display (t p : Z) :
  1 <= t <= 50 -> 10 <= p <= 100 ->
  INT_MIN <= t * 100 <= INT_MAX /\ INT_MIN <= t * 100 + p <= INT_MAX.
Proof. unfold INT_MIN, INT_MAX. lia. Qed.

End Settings.

(** ** Runs of the machine *)

Lemma run_cons (i : input) (inputs : list input) (m : machine) :
  run (i :: inputs) m = run inputs (step i m).
Proof. reflexivity. Qed.

Lemma run_app (l1 l2 : list input) (m : machine) :
  run (l1 ++ l2) m = run l2 (run l1 m).
Proof. unfold run. apply fold_left_app. Qed.

(** A property kept by every step is kept by every run. *)
Lemma run_invariant (P : machine -> Prop) :
  (forall i m, P m -> P (step i m)) ->
  forall inputs m, P m -> P (run inputs m).
Proof.
  intros Hstep inputs. induction inputs as [| i inputs IH]; intros m Hm.
  - exact Hm.
  - rewrite run_cons. apply IH, Hstep, Hm.
Qed.

Lemma reachable_invariant (P : machine -> Prop) :
  P boot ->
  (forall i m, P m -> P (step i m)) ->
  forall m, reachable m -> P m.
Proof.
  intros H0 Hstep m [inputs ->]. apply run_invariant; assumption.
Qed.

(** Case analysis on a step: the input, then the context that runs and its
    program point. *)
Ltac step_cases i m :=
  let s := fresh "s" in
  let p := fresh "p" in
  let q := fresh "q" in
  let l := fresh "l" in
  destruct m as [s p q l];
  destruct i as [ | | ? | ? ? ?];
  [ destruct q as [[ | | | | | ] | ]; [ | | | | | | destruct p ] | destruct q | | ];
  cbn [step isr mem pc log].

(** The same, with the main context's program point split in every case. *)
Ltac step_cases_pc i m :=
  let s := fresh "s" in
  let p := fresh "p" in
  let q := fresh "q" in
  let l := fresh "l" in
  destruct m as [s p q l];
  destruct i as [ | | ? | ? ? ?];
  destruct q as [[ | | | | | ] | ];
  destruct p;
  cbn [step isr mem pc log].

(** ** The handler and the triac pin *)

Section Handler.

Lemma pulse_inv_step (i : input) (m : machine) : pulse_inv m -> pulse_inv (step i m).
Proof.
  unfold pulse_inv. step_cases i m; simpl; intros H;
    repeat match goal with
           | |- context [if ?b then _ else _] => destruct b eqn:?
           end; simpl; intuition congruence.
Qed.

Lemma pulse_inv_reachable (m : machine) : reachable m -> pulse_inv m.
Proof. apply reachable_invariant; [reflexivity | apply pulse_inv_step]. Qed.

End Handler.

Section HandlerEffects.

Lemma isr_step_frame (p : isr_pc) (s : state) :
  globals_of (result_state (isr_step p s)) = globals_of s /\
  footSw (result_state (isr_step p s)) = footSw s /\
  potTime (result_state (isr_step p s)) = potTime s /\
  potPower (result_state (isr_step p s)) = potPower s /\
  Forall pulse_event (result_trace (isr_step p s)).
Proof.
  destruct p; unfold result_state, result_trace; simpl;
    repeat split; repeat constructor.
Qed.

(** C10: the handler writes none of the sketch's variables.  From every
    state, [zeroCrossISR] returns with [zeroCrossDetected], [firingDelay],
    [weldingActive], [setTimeVal], [setPowerVal] and [lastWeldTime]
    unchanged, and so does each single statement of it; all it does is
    write the triac pin and wait, and it leaves the pin low when it has
    pulsed. *)
Theorem zeroCrossISR_frame :
  (forall s,
      globals_of (result_state (zeroCrossISR s)) = globals_of s /\
      Forall pulse_event (result_trace (zeroCrossISR s)) /\
      triac (result_state (zeroCrossISR s)) = (if weldingActive s then LOW else triac s)) /\
  (forall p s, globals_of (result_state (isr_step p s)) = globals_of s).
Proof.
  split.
  - intros s. destruct (weldingActive s) eqn:Ha.
    + rewrite zeroCrossISR_active by assumption.
      destruct (firingDelay s >? 0); unfold result_state, result_trace; simpl;
        repeat split; repeat constructor.
    + rewrite zeroCrossISR_inactive by assumption.
      unfold result_state, result_trace; simpl. repeat split. constructor.
  - intros p s. apply isr_step_frame.
Qed.

(** In the machine, a step taken inside the handler leaves the variables
    and the main context's program point alone. *)
Lemma handler_step_frame (m : machine) (p : isr_pc) :
  isr m = Some p ->
  globals_of (mem (step Exec m)) = globals_of (mem m) /\ pc (step Exec m) = pc m.
Proof.
  destruct m as [s mp q l]. simpl. intros ->. destruct p; simpl;
    repeat match goal with
           | |- context [if ?b then _ else _] => destruct b
           end; split; reflexivity.
Qed.

(** C2: with the flag clear the handler returns at once: no wait, no write,
    no change of state.  In the machine the entry statement of the handler
    then returns to the main context with memory and log untouched, and in
    every reachable state (also inside the handler) a clear flag implies a
    low triac pin; the pin is high only between the handler's two writes. *)
Theorem triac_low_while_inactive :
  (forall s, weldingActive s = false -> zeroCrossISR s = (tt, s, [])) /\
  (forall m, isr m = Some I58 -> weldingActive (mem m) = false ->
             step Exec m = mkMachine (mem m) (pc m) None (log m)) /\
  (forall m, reachable m -> weldingActive (mem m) = false -> triac (mem m) = false) /\
  (forall m, reachable m -> triac (mem m) = true -> in_pulse m = true).
Proof.
  split; [exact zeroCrossISR_inactive |]. split; [| split].
  - intros [s p q l]. simpl. intros -> Ha. unfold step. simpl. rewrite Ha. reflexivity.
  - intros m Hr Ha. pose proof (pulse_inv_reachable m Hr) as H.
    unfold pulse_inv in H.
    destruct (isr m) as [[ | | | | | ] | ]; intuition congruence.
  - intros m Hr Ht. pose proof (pulse_inv_reachable m Hr) as H.
    unfold pulse_inv, in_pulse in *.
    destruct (isr m) as [[ | | | | | ] | ]; intuition congruence.
Qed.

Lemma triac_low_while_inactive_witness :
  zeroCrossISR power_on = (tt, power_on, []) /\
  step Exec (step ZeroCross boot) = boot /\
  triac (mem (step ZeroCross boot)) = false.
Proof.
  destruct triac_low_while_inactive as (H1 & H2 & H3 & _).
  split; [| split].
  - apply H1. reflexivity.
  - apply (H2 (step ZeroCross boot)); reflexivity.
  - apply H3; [exists [ZeroCross]; reflexivity | reflexivity].
Defined.

End HandlerEffects.

(** ** A weld session *)

Section WeldSession.

Lemma flag_inv_step (i : input) (m : machine) : flag_inv m -> flag_inv (step i m).
Proof.
  unfold flag_inv. step_cases i m; simpl; intros H;
    repeat match goal with
           | |- context [if ?b then _ else _] => destruct b eqn:?
           end; simpl; congruence.
Qed.

(** The flag is set exactly between lines 120 and 122 of [performWeld]. *)
Lemma flag_inv_reachable (m : machine) : reachable m -> flag_inv m.
Proof. apply reachable_invariant; [reflexivity | apply flag_inv_step]. Qed.

Lemma weld_exit_inv_step (i : input) (m : machine) :
  weld_exit_inv m -> weld_exit_inv (step i m).
Proof.
  unfold weld_exit_inv. step_cases_pc i m; simpl; intros H;
    repeat match goal with
           | |- context [if ?b then _ else _] => destruct b eqn:?
           end; simpl; intuition congruence.
Qed.

(** Without interrupts and with the clock advancing by exactly the session
    duration, the machine executes [performWeld] as the sequential
    definition says; in particular [performWeld] returns. *)
Lemma performWeld_uninterrupted (m : machine) :
  pc m = L118 -> isr m = None ->
  let d := weldDurationOf (setTimeVal (mem m)) in
  let m' := run [Exec; Exec; Exec; Elapse (Z.to_N (1000 * d)); Exec; Exec; Exec] m in
  mem m' = result_state (performWeld (mem m)) /\
  pc m' = L86 /\ isr m' = None /\
  List.map snd (log m') = rev (result_trace (performWeld (mem m))) ++ List.map snd (log m).
Proof.
  destruct m as [s p q l]. cbn [pc isr mem log]. intros -> ->.
  assert (Hd : 0 <= weldDurationOf (setTimeVal s)).
  { unfold weldDurationOf, to_ulong. apply Z.mod_pos_bound. reflexivity. }
  rewrite performWeld_run. unfold run, result_state, result_trace.
  cbn -[Z.mul Z.add Z.sub Z.geb Z.of_N Z.to_N].
  rewrite Z2N.id by lia.
  replace (clock s + 1000 * weldDurationOf (setTimeVal s) - clock s >=?
           1000 * weldDurationOf (setTimeVal s)) with true
    by (symmetry; apply Z.geb_le; lia).
  cbn -[Z.mul Z.add Z.sub]. repeat split.
Qed.

(** C1: when [performWeld] returns, the flag is clear and the triac pin is
    low.  Sequentially, its last two actions are the store of [false] to
    the flag and then the write of LOW to the pin.  With the handler
    preempting: start [performWeld] in any state whatever (any pin level,
    the handler at any point of a firing) and let any sequence of
    statements, interrupts and delays follow; whenever the main context is
    back in [loop] at line 86, the flag is clear and the pin is low. *)
Theorem performWeld_ends_with_triac_low :
  (forall s,
      weldingActive (result_state (performWeld s)) = false /\
      triac (result_state (performWeld s)) = LOW /\
      exists before,
        result_trace (performWeld s) =
          before ++ [StoreWeldingActive false; DigitalWrite PIN_TRIAC LOW]) /\
  (forall m inputs,
      pc m = L118 ->
      pc (run inputs m) = L86 ->
      weldingActive (mem (run inputs m)) = false /\
      triac (mem (run inputs m)) = LOW).
Proof.
  split.
  - intros s. rewrite performWeld_run. unfold result_state, result_trace. simpl.
    repeat split.
    exists [StoreWeldingActive true; Delay (weldDurationOf (setTimeVal s))].
    reflexivity.
  - intros m inputs Hentry Hexit.
    assert (H : weld_exit_inv (run inputs m)).
    { apply run_invariant; [exact weld_exit_inv_step |].
      unfold weld_exit_inv. rewrite Hentry. exact I. }
    unfold weld_exit_inv in H. rewrite Hexit in H. intuition.
Qed.

(** A session with the triac pin stuck high at its start and an interrupt
    that fires just before the flag is cleared. *)
Lemma performWeld_ends_with_triac_low_witness :
  let m := mkMachine (set_triac HIGH (set_setTimeVal 1 power_on)) L118 (Some I72) [] in
  let inputs := [Exec; Exec; Exec; Exec; Exec; Exec; Elapse 20000; ZeroCross;
                 Exec; Exec; Exec; Exec; Exec; Exec; Exec; Exec] in
  weldingActive (mem (run inputs m)) = false /\ triac (mem (run inputs m)) = LOW.
Proof.
  intros m inputs.
  apply (proj2 performWeld_ends_with_triac_low m inputs); reflexivity.
Defined.

End WeldSession.

(** ** Bounds on the firing delay *)

Section DelayBounds.

Lemma delay_inv_step (i : input) (m : machine) : delay_inv m -> delay_inv (step i m).
Proof.
  unfold delay_inv.
  pose proof (timeLevelOf_range (potTime (mem m) mod 1024)) as HT.
  pose proof (powerPercentOf_range (potPower (mem m) mod 1024)) as HP.
  pose proof (computeFiring_range (setPowerVal (mem m))) as HF.
  pose proof (Z.mod_pos_bound (potTime (mem m)) 1024) as HmT.
  pose proof (Z.mod_pos_bound (potPower (mem m)) 1024) as HmP.
  pose proof (to_uint_small (firingDelay (mem m))) as HU.
  step_cases_pc i m; unfold record, stamp; simpl in *;
    intros (Ht & Hp & Hd & Hf & Hl);
    repeat match goal with
           | H : ?a = ?a -> _ |- _ => specialize (H eq_refl)
           end;
    repeat match goal with
           | |- context [if ?b then _ else _] => destruct b eqn:?
           end; simpl;
    repeat match goal with
           | |- _ /\ _ => split
           | |- Forall _ (_ :: _) => constructor
           | |- _ -> _ => intros ?
           end; simpl; auto; try discriminate; try lia.
Qed.

Lemma delay_inv_reachable (m : machine) : reachable m -> delay_inv m.
Proof.
  apply reachable_invariant; [| apply delay_inv_step].
  unfold delay_inv. simpl. repeat split; try discriminate; try lia.
  repeat constructor.
Qed.

Lemma isr_duration_bound (s : state) :
  0 <= firingDelay s <= 8500 -> 0 <= isr_duration s <= 8550.
Proof.
  intros Hd. unfold isr_duration. destruct (weldingActive s) eqn:Ha.
  - rewrite zeroCrossISR_active by assumption.
    destruct (firingDelay s >? 0); unfold result_state; simpl;
      rewrite ?to_uint_small by lia; lia.
  - rewrite zeroCrossISR_inactive by assumption. unfold result_state; simpl. lia.
Qed.

(** C4: every firing delay the main loop publishes is within [0,8500] us
    (within [100,8500] in fact).  For every reading of the power
    potentiometer in 0..1023 the delay computed from it is in that range,
    and in every reachable state of the machine the variable [firingDelay],
    every value stored to it and every busy wait of the handler are in that
    range; so an invocation of the handler (wait, then a 50 us pulse) takes
    at most 8550 us, less than the half cycle of 10000 us. *)
Theorem firingDelay_fits_half_cycle :
  (forall raw, 0 <= raw <= 1023 ->
               0 <= computeFiring (powerPercentOf raw) <= 8500) /\
  (forall inputs,
      let m := run inputs boot in
      0 <= firingDelay (mem m) <= 8500 /\
      (forall t v, In (t, StoreFiringDelay v) (log m) -> 0 <= v <= 8500) /\
      (forall t us, In (t, DelayMicroseconds us) (log m) -> 0 <= us <= 8500) /\
      0 <= isr_duration (mem m) <= 8550) /\
  8500 + 50 < HALF_CYCLE_US.
Proof.
  split; [| split; [| reflexivity]].
  - intros raw Hr. pose proof (powerPercentOf_range raw Hr) as Hp.
    pose proof (computeFiring_range _ Hp). lia.
  - intros inputs m.
    assert (Hr : reachable m) by (exists inputs; reflexivity).
    destruct (delay_inv_reachable m Hr) as (_ & _ & _ & Hf & Hl).
    rewrite Forall_forall in Hl.
    split; [exact Hf |]. split; [| split].
    + intros t v Hin. specialize (Hl _ Hin). simpl in Hl. lia.
    + intros t us Hin. specialize (Hl _ Hin). simpl in Hl. exact Hl.
    + apply isr_duration_bound; exact Hf.
Qed.

Lemma firingDelay_fits_half_cycle_witness :
  0 <= computeFiring (powerPercentOf 1023) <= 8500 /\
  0 <= firingDelay (mem (run [Sense 0 0 HIGH; Exec; Exec; Exec] boot)) <= 8500.
Proof.
  destruct firingDelay_fits_half_cycle as (H1 & H2 & _).
  split; [apply H1; lia |].
  exact (proj1 (H2 [Sense 0 0 HIGH; Exec; Exec; Exec])).
Defined.

End DelayBounds.

(** ** Stepping rules

    What one statement does, read off [step]. *)

Section SteppingRules.

Variables (s : state) (p : main_pc) (l : list (Z * event)).

Lemma run_nil (m : machine) : run [] m = m.
Proof. reflexivity. Qed.

Lemma step_ZeroCross :
  step ZeroCross (mkMachine s p None l) = mkMachine s p (Some I58) l.
Proof. reflexivity. Qed.

Lemma step_Elapse (q : option isr_pc) (us : N) :
  step (Elapse us) (mkMachine s p q l) = mkMachine (advance (Z.of_N us) s) p q l.
Proof. reflexivity. Qed.

Lemma exec_I58 :
  step Exec (mkMachine s p (Some I58) l) =
  mkMachine s p (if weldingActive s then Some I67 else None) l.
Proof. reflexivity. Qed.

Lemma exec_I67 :
  step Exec (mkMachine s p (Some I67) l) =
  mkMachine s p (Some (if firingDelay s >? 0 then I68 else I72)) l.
Proof. reflexivity. Qed.

Lemma exec_I68 :
  step Exec (mkMachine s p (Some I68) l) =
  mkMachine (advance (to_uint (firingDelay s)) s) p (Some I72)
            ((clock s, DelayMicroseconds (to_uint (firingDelay s))) :: l).
Proof. reflexivity. Qed.

Lemma exec_I72 :
  step Exec (mkMachine s p (Some I72) l) =
  mkMachine (set_triac HIGH s) p (Some I73) ((clock s, DigitalWrite PIN_TRIAC HIGH) :: l).
Proof. reflexivity. Qed.

Lemma exec_I73 :
  step Exec (mkMachine s p (Some I73) l) =
  mkMachine (advance 50 s) p (Some I74) ((clock s, DelayMicroseconds 50) :: l).
Proof. reflexivity. Qed.

Lemma exec_I74 :
  step Exec (mkMachine s p (Some I74) l) =
  mkMachine (set_triac LOW s) p None ((clock s, DigitalWrite PIN_TRIAC LOW) :: l).
Proof. reflexivity. Qed.

Lemma exec_L95 :
  step Exec (mkMachine s L95 None l) =
  mkMachine (set_setTimeVal (timeLevelOf (potTime s mod 1024)) s) L99 None l.
Proof. reflexivity. Qed.

Lemma exec_L99 :
  step Exec (mkMachine s L99 None l) =
  mkMachine (set_setPowerVal (powerPercentOf (potPower s mod 1024)) s) L105 None l.
Proof. reflexivity. Qed.

Lemma exec_L105 :
  step Exec (mkMachine s L105 None l) =
  mkMachine (set_firingDelay (computeFiring (setPowerVal s)) s) L111 None
            ((clock s, StoreFiringDelay (computeFiring (setPowerVal s))) :: l).
Proof. reflexivity. Qed.

Lemma exec_L111 :
  step Exec (mkMachine s L111 None l) =
  mkMachine s L83 None
            ((clock s, ShowNumberDecEx (dispNumOf (setTimeVal s) (setPowerVal s)) 0x40 true)
               :: l).
Proof. reflexivity. Qed.

Lemma exec_L83 :
  step Exec (mkMachine s L83 None l) =
  mkMachine s (if Bool.eqb (footSw s) LOW then L84 else L95) None l.
Proof. reflexivity. Qed.

Lemma exec_L84 :
  step Exec (mkMachine s L84 None l) =
  mkMachine s (if debounce_elapsed (to_ulong (clock s / 1000)) (lastWeldTime s)
               then L118 else L95) None l.
Proof. reflexivity. Qed.

Lemma exec_L118 :
  step Exec (mkMachine s L118 None l) =
  mkMachine s (L120 (weldDurationOf (setTimeVal s))) None l.
Proof. reflexivity. Qed.

Lemma exec_L120 (d : Z) :
  step Exec (mkMachine s (L120 d) None l) =
  mkMachine (set_weldingActive true s) (L121 d) None
            ((clock s, StoreWeldingActive true) :: l).
Proof. reflexivity. Qed.

Lemma exec_L121 (d : Z) :
  step Exec (mkMachine s (L121 d) None l) =
  mkMachine s (L121_wait d (clock s)) None ((clock s, Delay d) :: l).
Proof. reflexivity. Qed.

Lemma exec_L121_wait (d since : Z) :
  step Exec (mkMachine s (L121_wait d since) None l) =
  mkMachine s (if clock s - since >=? 1000 * d then L122 else L121_wait d since) None l.
Proof. reflexivity. Qed.

Lemma exec_L122 :
  step Exec (mkMachine s L122 None l) =
  mkMachine (set_weldingActive false s) L125 None
            ((clock s, StoreWeldingActive false) :: l).
Proof. reflexivity. Qed.

Lemma exec_L125 :
  step Exec (mkMachine s L125 None l) =
  mkMachine (set_triac LOW s) L86 None ((clock s, DigitalWrite PIN_TRIAC LOW) :: l).
Proof. reflexivity. Qed.

Lemma exec_L86 :
  step Exec (mkMachine s L86 None l) =
  mkMachine (set_lastWeldTime (to_ulong (clock s / 1000)) s) L95 None l.
Proof. reflexivity. Qed.

End SteppingRules.

(** ** The machine against the sequential definitions *)

Section Agreement.

(** Reduce field accesses on updated states. *)
Ltac fields :=
  cbn [zeroCrossDetected firingDelay weldingActive setTimeVal setPowerVal lastWeldTime
       triac footSw potTime potPower clock
       set_firingDelay set_weldingActive set_setTimeVal set_setPowerVal
       set_lastWeldTime set_triac set_inputs advance
       mem pc isr log].

(** An interrupt taken by the main context runs the handler to its return
    in at most six statements, with the effect of [zeroCrossISR]. *)
Lemma handler_runs_zeroCrossISR (m : machine) :
  isr m = None ->
  exists n, (n <= 6)%nat /\
    let m' := run (ZeroCross :: repeat Exec n) m in
    mem m' = result_state (zeroCrossISR (mem m)) /\
    pc m' = pc m /\ isr m' = None /\
    List.map snd (log m') =
      rev (result_trace (zeroCrossISR (mem m))) ++ List.map snd (log m).
Proof.
  destruct m as [s p q l]. cbn [isr mem pc log]. intros ->.
  destruct (weldingActive s) eqn:Ha.
  - rewrite zeroCrossISR_active by assumption.
    destruct (firingDelay s >? 0) eqn:Hd.
    + exists 6%nat. split; [lia |]. cbn [repeat].
      rewrite run_cons, step_ZeroCross, run_cons, exec_I58, Ha,
        run_cons, exec_I67, Hd, run_cons, exec_I68, run_cons, exec_I72,
        run_cons, exec_I73, run_cons, exec_I74, run_nil.
      repeat split.
    + exists 5%nat. split; [lia |]. cbn [repeat].
      rewrite run_cons, step_ZeroCross, run_cons, exec_I58, Ha,
        run_cons, exec_I67, Hd, run_cons, exec_I72,
        run_cons, exec_I73, run_cons, exec_I74, run_nil.
      repeat split.
  - rewrite zeroCrossISR_inactive by assumption.
    exists 1%nat. split; [lia |]. cbn [repeat].
    rewrite run_cons, step_ZeroCross, run_cons, exec_I58, Ha, run_nil.
    repeat split.
Qed.

(** [loop], unfolded. *)
Lemma loop_run (s : state) :
  loop s =
  let tv := timeLevelOf (potTime s mod 1024) in
  let pv := powerPercentOf (potPower s mod 1024) in
  let fd := computeFiring pv in
  let s1 := set_firingDelay fd (set_setPowerVal pv (set_setTimeVal tv s)) in
  let e1 := [StoreFiringDelay fd; ShowNumberDecEx (dispNumOf tv pv) 0x40 true] in
  if footSw s then (tt, s1, e1)
  else if debounce_elapsed (to_ulong (clock s / 1000)) (lastWeldTime s) then
    (tt,
     set_lastWeldTime (to_ulong ((clock s + 1000 * weldDurationOf tv) / 1000))
       (set_triac LOW
          (set_weldingActive false
             (advance (1000 * weldDurationOf tv) (set_weldingActive true s1)))),
     e1 ++ [StoreWeldingActive true; Delay (weldDurationOf tv);
            StoreWeldingActive false; DigitalWrite PIN_TRIAC LOW])
  else (tt, s1, e1).
Proof.
  destruct s as [z fd wa tv pv lw tr fs pt pp c].
  unfold loop. cbn -[Z.mul Z.add Z.sub Z.div Z.modulo].
  destruct fs; [reflexivity |]. cbn -[Z.mul Z.add Z.sub Z.div Z.modulo].
  destruct (debounce_elapsed (to_ulong (c / 1000)) lw);
    cbn -[Z.mul Z.add Z.sub Z.div Z.modulo]; reflexivity.
Qed.

(** One turn of [loop] without interrupts, the clock advancing only inside
    [delay] and by exactly its argument: the machine does what the
    sequential [loop] says, and is back at the head of [loop]. *)
Lemma loop_uninterrupted (m : machine) :
  pc m = L95 -> isr m = None ->
  exists inputs,
    let m' := run inputs m in
    mem m' = result_state (loop (mem m)) /\
    pc m' = L95 /\ isr m' = None /\
    List.map snd (log m') = rev (result_trace (loop (mem m))) ++ List.map snd (log m).
Proof.
  destruct m as [s p q l]. cbn [isr mem pc log]. intros -> ->.
  rewrite loop_run. cbv zeta.
  destruct (footSw s) eqn:Hsw.
  - exists (repeat Exec 5). cbn [repeat].
    rewrite run_cons, exec_L95, run_cons, exec_L99, run_cons, exec_L105,
      run_cons, exec_L111, run_cons, exec_L83, run_nil.
    fields. rewrite Hsw. repeat split.
  - destruct (debounce_elapsed (to_ulong (clock s / 1000)) (lastWeldTime s)) eqn:Hdb.
    + set (d := weldDurationOf (timeLevelOf (potTime s mod 1024))).
      assert (Hd : 0 <= d).
      { unfold d, weldDurationOf, to_ulong. apply Z.mod_pos_bound. reflexivity. }
      exists (repeat Exec 9 ++ [Elapse (Z.to_N (1000 * d))] ++ repeat Exec 4).
      cbn [repeat app].
      rewrite run_cons, exec_L95, run_cons, exec_L99, run_cons, exec_L105,
        run_cons, exec_L111, run_cons, exec_L83.
      fields. rewrite Hsw. cbn [Bool.eqb LOW].
      rewrite run_cons, exec_L84. fields. rewrite Hdb.
      rewrite run_cons, exec_L118, run_cons, exec_L120, run_cons, exec_L121,
        run_cons, step_Elapse, run_cons, exec_L121_wait.
      fields. fold d. rewrite Z2N.id by lia.
      replace (clock s + 1000 * d - clock s >=? 1000 * d) with true
        by (symmetry; apply Z.geb_le; lia).
      rewrite run_cons, exec_L122, run_cons, exec_L125, run_cons, exec_L86, run_nil.
      fields. repeat split.
    + exists (repeat Exec 6). cbn [repeat].
      rewrite run_cons, exec_L95, run_cons, exec_L99, run_cons, exec_L105,
        run_cons, exec_L111, run_cons, exec_L83.
      fields. rewrite Hsw. cbn [Bool.eqb LOW].
      rewrite run_cons, exec_L84. fields. rewrite Hdb. rewrite run_nil.
      repeat split.
Qed.

End Agreement.

(** ** Debounce *)

Section Debounce.

Lemma session_ends_bounded (c : Z) (l : list (Z * event)) :
  Forall (fun te => fst te <= c) l ->
  forall e, In e (session_ends l) -> e <= c.
Proof.
  intros Hl e He. unfold session_ends in He.
  apply in_map_iff in He. destruct He as ([t ev] & <- & Hin).
  apply filter_In in Hin. destruct Hin as [Hin _].
  rewrite Forall_forall in Hl. exact (Hl _ Hin).
Qed.

Lemma log_bound_mono (c c' : Z) (l : list (Z * event)) :
  c <= c' ->
  Forall (fun te => fst te <= c) l -> Forall (fun te => fst te <= c') l.
Proof.
  intros Hc Hl. eapply Forall_impl; [| exact Hl]. simpl. intros te Hte. lia.
Qed.

(** The test of line 84 on the millisecond counter implies that more than
    the debounce time has passed since the instant of the stamp, whatever
    the wrap-around of the counter. *)
Lemma debounce_elapsed_gap (now stamped : Z) :
  stamped <= now ->
  debounce_elapsed (to_ulong (now / 1000)) (to_ulong (stamped / 1000)) = true ->
  now - stamped > DEBOUNCE_US.
Proof.
  intros Hle Hd. unfold debounce_elapsed in Hd. apply Z.gtb_lt in Hd.
  assert (Hms : stamped / 1000 <= now / 1000) by (apply Z.div_le_mono; lia).
  assert (Hsub : to_ulong (to_ulong (now / 1000) - to_ulong (stamped / 1000))
                 <= now / 1000 - stamped / 1000).
  { unfold to_ulong at 1 2. rewrite Zminus_mod_idemp_l.
    fold (to_ulong (now / 1000 - to_ulong (stamped / 1000))).
    apply to_ulong_sub_le. assumption. }
  rewrite (to_ulong_small DEBOUNCE_MS) in Hd by (unfold DEBOUNCE_MS; lia).
  unfold DEBOUNCE_US, DEBOUNCE_MS in *.
  pose proof (Z.mul_div_le now 1000 ltac:(lia)).
  pose proof (Z.mul_succ_div_gt stamped 1000 ltac:(lia)).
  lia.
Qed.

(** Conversely, within the debounce time of the stamp the test fails. *)
Lemma debounce_not_elapsed (now stamped : Z) :
  stamped <= now -> now - stamped <= DEBOUNCE_US ->
  debounce_elapsed (to_ulong (now / 1000)) (to_ulong (stamped / 1000)) = false.
Proof.
  intros Hle Hgap. unfold debounce_elapsed.
  rewrite (to_ulong_small DEBOUNCE_MS) by (unfold DEBOUNCE_MS; lia).
  unfold DEBOUNCE_US, DEBOUNCE_MS in *.
  assert (Hms : stamped / 1000 <= now / 1000) by (apply Z.div_le_mono; lia).
  assert (Hup : now / 1000 - stamped / 1000 <= 500).
  { pose proof (Z.mul_div_le now 1000 ltac:(lia)).
    pose proof (Z.mul_succ_div_gt stamped 1000 ltac:(lia)).
    pose proof (Z.mul_succ_div_gt now 1000 ltac:(lia)).
    pose proof (Z.mul_div_le stamped 1000 ltac:(lia)).
    assert (now / 1000 <= (stamped + 500000) / 1000) by (apply Z.div_le_mono; lia).
    replace (stamped + 500000) with (stamped + 500 * 1000) in * by lia.
    rewrite Z.div_add in * by lia. lia. }
  unfold to_ulong at 1 2. rewrite Zminus_mod_idemp_l.
  fold (to_ulong (now / 1000 - to_ulong (stamped / 1000))).
  pose proof (to_ulong_sub_le (now / 1000) (stamped / 1000) Hms).
  rewrite Z.gtb_ltb. apply Z.ltb_ge. lia.
Qed.


Ltac debounce_goal Hlog Hidle Hpassed :=
  repeat match goal with
         | |- _ /\ _ => split
         | |- Forall _ (_ :: _) => constructor
         end;
  simpl;
  try assumption;
  try (eapply log_bound_mono; [| exact Hlog]; lia);
  try lia;
  try (intros ?; discriminate);
  try (intros _ e He; first [specialize (Hidle e He) | specialize (Hpassed e He)]; lia).

Lemma debounce_inv_step (i : input) (m : machine) :
  debounce_inv m -> debounce_inv (step i m).
Proof.
  unfold debounce_inv.
  pose proof (Z.mod_pos_bound (firingDelay (mem m)) (2 ^ 16) eq_refl) as HU.
  fold (to_uint (firingDelay (mem m))) in HU.
  intros (Hlog & Hdeb & stamped & Hlast & Hle & Hidle & Hpassed).
  pose proof (session_ends_bounded _ _ Hlog) as Hends.
  pose proof (debounce_elapsed_gap (clock (mem m)) stamped Hle) as Hgap.
  rewrite <- Hlast in Hgap.
  unfold DEBOUNCE_US, DEBOUNCE_MS in *.
  step_cases_pc i m; unfold record, stamp; simpl in *;
    try match goal with us : N |- _ => pose proof (N2Z.is_nonneg us) end;
    repeat match goal with
           | H : ?a = ?a -> _ |- _ => specialize (H eq_refl)
           end;
    repeat match goal with
           | |- context [if ?b then _ else _] => destruct b eqn:?
           end; simpl;
    (split; [debounce_goal Hlog Hidle Hpassed |]);
    (split; [debounce_goal Hlog Hidle Hpassed |]);
    first [ solve [exists stamped; debounce_goal Hlog Hidle Hpassed]
          | exists (clock s); debounce_goal Hlog Hidle Hpassed;
            first [reflexivity | intros _; exact Hends] ].
Qed.

Lemma boot_run :
  boot =
  mkMachine (mkState false 0 false 0 0 0 LOW HIGH 0 0 1000000) L95 None
            [(0, Delay 1000); (0, SetSegments [118; 48; 0; 0]); (0, SetBrightness 15);
             (0, AttachInterrupt PIN_ZERO_CROSS RISING); (0, PinMode PIN_ZERO_CROSS INPUT);
             (0, PinMode PIN_FOOT_SW INPUT_PULLUP); (0, DigitalWrite PIN_TRIAC LOW);
             (0, PinMode PIN_TRIAC OUTPUT)].
Proof. vm_compute. reflexivity. Qed.

Lemma debounce_inv_boot : debounce_inv boot.
Proof.
  unfold debounce_inv. rewrite boot_run.
  cbn [mem pc log clock lastWeldTime idle passed_debounce debounced session_ends
       filter List.map snd fst].
  split; [| split].
  - repeat constructor; cbn [fst]; lia.
  - exact I.
  - exists 0. split; [vm_compute; reflexivity |]. split; [lia |].
    split; [intros _ e [] | intros H; discriminate H].
Qed.

Lemma debounce_inv_reachable (m : machine) : reachable m -> debounce_inv m.
Proof.
  apply reachable_invariant; [exact debounce_inv_boot | apply debounce_inv_step].
Qed.

(** C6: the debounce is measured from the end of the previous session.
    In every run of the machine from boot, a session starts (the flag is
    set) only when every earlier session end (the flag was cleared) lies
    more than [DEBOUNCE_MS] milliseconds back; the stamp [lastWeldTime] is
    taken at line 86, after [performWeld] has returned.  So when the main
    context tests the debounce at line 84 within [DEBOUNCE_MS] of a session
    end, foot switch pressed or held, it starts no session and goes back to
    the head of [loop]. *)
Theorem debounce_from_session_end :
  (forall inputs, debounced DEBOUNCE_US (log (run inputs boot))) /\
  (forall m e,
      reachable m -> pc m = L84 -> isr m = None ->
      In e (session_ends (log m)) ->
      clock (mem m) - e <= DEBOUNCE_US ->
      pc (step Exec m) = L95 /\ log (step Exec m) = log m) /\
  (forall m,
      pc m = L86 -> isr m = None ->
      lastWeldTime (mem (step Exec m)) = to_ulong (clock (mem m) / 1000)).
Proof.
  split; [| split].
  - intros inputs.
    assert (Hr : reachable (run inputs boot)) by (exists inputs; reflexivity).
    exact (proj1 (proj2 (debounce_inv_reachable _ Hr))).
  - intros m e Hr Hpc Hisr He Hgap.
    destruct (debounce_inv_reachable m Hr)
      as (Hlog & _ & stamped & Hlast & Hle & Hidle & _).
    rewrite Hpc in Hidle. specialize (Hidle eq_refl e He).
    assert (Hno : debounce_elapsed (to_ulong (clock (mem m) / 1000))
                                   (lastWeldTime (mem m)) = false).
    { rewrite Hlast. apply debounce_not_elapsed; lia. }
    destruct m as [s p q l]. simpl in *. subst p q.
    unfold step. simpl. rewrite Hno. split; reflexivity.
  - intros [s p q l]. simpl. intros -> ->. reflexivity.
Qed.

(** A press held through one session of 20 ms and tested again at once. *)
Lemma debounce_from_session_end_witness :
  let first_turn := [Sense 0 0 LOW] ++ repeat Exec 9 ++ [Elapse 20000] ++ repeat Exec 4 in
  let m := run (first_turn ++ repeat Exec 5) boot in
  let m86 := run ([Sense 0 0 LOW] ++ repeat Exec 9 ++ [Elapse 20000] ++ repeat Exec 3) boot in
  debounced DEBOUNCE_US (log m) /\
  (pc (step Exec m) = L95 /\ log (step Exec m) = log m) /\
  lastWeldTime (mem (step Exec m86)) = to_ulong (clock (mem m86) / 1000).
Proof.
  intros first_turn m m86.
  destruct debounce_from_session_end as (H1 & H2 & H3).
  split; [exact (H1 (first_turn ++ repeat Exec 5)) |].
  split.
  - apply (H2 m 1020000).
    + exists (first_turn ++ repeat Exec 5). reflexivity.
    + vm_compute. reflexivity.
    + vm_compute. reflexivity.
    + vm_compute. left. reflexivity.
    + vm_compute. discriminate.
  - apply (H3 m86); vm_compute; reflexivity.
Defined.

(** A foot switch held down from boot on: the first session starts at once
    (more than the debounce time after power-on), a test 500 ms after its
    end starts none, and a test one millisecond later starts the second. *)
Example held_switch_sessions :
  let first_turn := [Sense 0 0 LOW] ++ repeat Exec 9 ++ [Elapse 20000] ++ repeat Exec 4 in
  let early := first_turn ++ [Elapse 500999] ++ repeat Exec 8 in
  let late := first_turn ++ [Elapse 501000] ++ repeat Exec 8 in
  session_starts (log (run first_turn boot)) = [1000000] /\
  session_ends (log (run first_turn boot)) = [1020000] /\
  session_starts (log (run early boot)) = [1000000] /\
  session_starts (log (run late boot)) = [1521000; 1000000].
Proof. vm_compute. repeat split. Qed.

End Debounce.

(** ** Sessions in the log of the machine *)

Section SessionLog.

Ltac session_goal :=
  repeat match goal with
         | |- _ /\ _ => split
         | |- exists _, _ => eexists
         | |- _ -> _ => intro
         | |- True => exact I
         end;
  simpl; try eassumption; try reflexivity; try lia; try discriminate; try congruence;
  auto.

Lemma session_inv_step (i : input) (m : machine) :
  pulse_inv m -> flag_inv m -> delay_inv m -> session_inv m -> session_inv (step i m).
Proof.
  unfold pulse_inv, flag_inv, delay_inv, session_inv.
  pose proof (weldDurationOf_exact (setTimeVal (mem m))) as HD.
  pose proof (Z.mod_pos_bound (firingDelay (mem m)) (2 ^ 16) eq_refl) as HU.
  fold (to_uint (firingDelay (mem m))) in HU.
  intros Hpulse Hflag (Htime & _) (Hst & Hq & Hclosed & Hpc).
  step_cases_pc i m; unfold record, stamp; simpl in *;
    try match goal with us : N |- _ => pose proof (N2Z.is_nonneg us) end;
    repeat match goal with
           | H : ?a = ?a -> _ |- _ => specialize (H eq_refl)
           | H : exists _, _ |- _ => destruct H
           | H : _ /\ _ |- _ => destruct H
           end;
    repeat match goal with
           | |- context [if ?b then _ else _] => destruct b eqn:?
           end; simpl;
    try match goal with H : (_ >=? _) = true |- _ => apply Z.geb_le in H end;
    try congruence; solve [session_goal].
Qed.

Lemma machine_inv_step (i : input) (m : machine) : machine_inv m -> machine_inv (step i m).
Proof.
  intros (Hp & Hf & Hd & Hs). split; [| split; [| split]].
  - apply pulse_inv_step; assumption.
  - apply flag_inv_step; assumption.
  - apply delay_inv_step; assumption.
  - apply session_inv_step; assumption.
Qed.

Lemma machine_inv_boot : machine_inv boot.
Proof.
  split; [| split; [| split]].
  - exact (pulse_inv_reachable boot (ex_intro _ [] eq_refl)).
  - exact (flag_inv_reachable boot (ex_intro _ [] eq_refl)).
  - exact (delay_inv_reachable boot (ex_intro _ [] eq_refl)).
  - unfold session_inv. rewrite boot_run.
    cbn [mem pc log sessions_timed quiet_outside_sessions open_session weldingActive].
    repeat split; auto.
Qed.

Lemma machine_inv_reachable (m : machine) : reachable m -> machine_inv m.
Proof.
  apply reachable_invariant; [exact machine_inv_boot | exact machine_inv_step].
Qed.

(** X8: sessions in the log of any run from boot do not nest, and each one
    lasts at least as long as the [delay] that [performWeld] called in it:
    the flag is cleared no earlier than [1000 * d] microseconds after it was
    set, where [d], the argument of that call, is between 20 and 1000 ms.
    Time spent in the handler counts towards the session. *)
Theorem sessions_last_their_delay (inputs : list input) :
  sessions_timed (log (run inputs boot)).
Proof.
  assert (Hr : reachable (run inputs boot)) by (exists inputs; reflexivity).
  destruct (machine_inv_reachable _ Hr) as (_ & _ & _ & H & _). exact H.
Qed.

(** X9: in any run from boot, every write of HIGH to a pin happens inside a
    session (after a store of [true] to the flag with no store of [false]
    since), and every store to [firingDelay] happens outside one: the
    handler sees one firing delay throughout a session. *)
Theorem pulses_and_delay_stores_by_session (inputs : list input) :
  quiet_outside_sessions (log (run inputs boot)).
Proof.
  assert (Hr : reachable (run inputs boot)) by (exists inputs; reflexivity).
  destruct (machine_inv_reachable _ Hr) as (_ & _ & _ & _ & H & _). exact H.
Qed.

(** A session of 20 ms with two zero crossings, then a second turn. *)
Example session_log_example :
  let inputs := [Sense 0 1023 LOW] ++ repeat Exec 9 ++ [ZeroCross] ++ repeat Exec 6 ++
                [Elapse 10000; ZeroCross] ++ repeat Exec 6 ++ [Elapse 10000] ++
                repeat Exec 4 in
  List.map snd (log (run inputs boot)) =
  rev [PinMode PIN_TRIAC OUTPUT; DigitalWrite PIN_TRIAC LOW;
       PinMode PIN_FOOT_SW INPUT_PULLUP; PinMode PIN_ZERO_CROSS INPUT;
       AttachInterrupt PIN_ZERO_CROSS RISING; SetBrightness 15;
       SetSegments [118; 48; 0; 0]; Delay 1000;
       StoreFiringDelay 100; ShowNumberDecEx 200 64 true;
       StoreWeldingActive true; Delay 20;
       DelayMicroseconds 100; DigitalWrite PIN_TRIAC HIGH;
       DelayMicroseconds 50; DigitalWrite PIN_TRIAC LOW;
       DelayMicroseconds 100; DigitalWrite PIN_TRIAC HIGH;
       DelayMicroseconds 50; DigitalWrite PIN_TRIAC LOW;
       StoreWeldingActive false; DigitalWrite PIN_TRIAC LOW] /\
  session_starts (log (run inputs boot)) = [1000000] /\
  session_ends (log (run inputs boot)) = [1020300].
Proof. vm_compute. repeat split. Qed.

(** X7: the branch of line 67 that skips the wait is never taken when the
    handler fires.  In every reachable state with the flag set the firing
    delay is between 100 and 8500, so an invocation of the handler waits
    [firingDelay] microseconds, raises the pin, waits 50 and lowers it, and
    takes [firingDelay + 50] microseconds. *)
Theorem handler_always_waits (m : machine) :
  reachable m -> weldingActive (mem m) = true ->
  100 <= firingDelay (mem m) <= 8500 /\
  result_trace (zeroCrossISR (mem m)) =
    [DelayMicroseconds (firingDelay (mem m)); DigitalWrite PIN_TRIAC HIGH;
     DelayMicroseconds 50; DigitalWrite PIN_TRIAC LOW] /\
  isr_duration (mem m) = firingDelay (mem m) + 50.
Proof.
  intros Hr Ha.
  destruct (machine_inv_reachable m Hr) as (_ & Hf & (_ & _ & Hd & _) & _).
  unfold flag_inv in Hf. rewrite Ha in Hf.
  assert (Hset : delay_set (pc m) = true) by (destruct (pc m); simpl in *; congruence).
  specialize (Hd Hset).
  assert (Hpos : (firingDelay (mem m) >? 0) = true) by (apply Z.gtb_lt; lia).
  unfold isr_duration. rewrite zeroCrossISR_active, Hpos by assumption.
  rewrite to_uint_small by lia.
  unfold result_trace, result_state. simpl. repeat split; lia.
Qed.

Lemma handler_always_waits_witness :
  let m := run ([Sense 0 0 LOW] ++ repeat Exec 8) boot in
  firingDelay (mem m) = 8500 /\ isr_duration (mem m) = firingDelay (mem m) + 50.
Proof.
  intros m.
  assert (H : weldingActive (mem m) = true) by (vm_compute; reflexivity).
  destruct (handler_always_waits m (ex_intro _ _ eq_refl) H) as (_ & _ & Hd).
  split; [vm_compute; reflexivity | exact Hd].
Defined.

End SessionLog.

(** ** More invariants of the machine *)

Section MachineInvariants.

(** X10: the flag is set exactly while the main context is inside
    [performWeld], between the store of line 120 and the store of line 122;
    and whenever the triac pin is high the main context is suspended there,
    in the middle of its [delay]. *)
Theorem flag_set_only_inside_performWeld (m : machine) :
  reachable m ->
  weldingActive (mem m) = armed (pc m) /\
  (triac (mem m) = true -> armed (pc m) = true /\ isr m <> None).
Proof.
  intros Hr. pose proof (flag_inv_reachable m Hr) as Hf.
  pose proof (pulse_inv_reachable m Hr) as Hp.
  unfold flag_inv in Hf. unfold pulse_inv in Hp.
  split; [exact Hf |]. intros Ht. rewrite <- Hf.
  destruct (isr m) as [[ | | | | | ] | ]; intuition congruence.
Qed.

Lemma flag_set_only_inside_performWeld_witness :
  let m := run ([Sense 0 0 LOW] ++ repeat Exec 9 ++ [ZeroCross] ++ repeat Exec 4) boot in
  triac (mem m) = true /\ weldingActive (mem m) = armed (pc m) /\ armed (pc m) = true.
Proof.
  intros m.
  destruct (flag_set_only_inside_performWeld m (ex_intro _ _ eq_refl)) as [Hf Ht].
  assert (H : triac (mem m) = true) by (vm_compute; reflexivity).
  split; [exact H |]. split; [exact Hf | exact (proj1 (Ht H))].
Defined.

Lemma display_inv_step (i : input) (m : machine) :
  delay_inv m -> display_inv m -> display_inv (step i m).
Proof.
  unfold delay_inv, display_inv.
  pose proof (dispNumOf_exact (setTimeVal (mem m)) (setPowerVal (mem m))) as HN.
  unfold INT_MIN, INT_MAX in HN.
  intros (Ht & Hp & _) Hl.
  step_cases_pc i m; unfold record, stamp; simpl in *;
    repeat match goal with
           | H : ?a = ?a -> _ |- _ => specialize (H eq_refl)
           end;
    repeat match goal with
           | |- context [if ?b then _ else _] => destruct b eqn:?
           end; simpl;
    repeat match goal with
           | |- Forall _ (_ :: _) => constructor
           end; simpl; try assumption; try exact I.
  all: split; [rewrite HN; lia | split; reflexivity].
Qed.

(** X11: every number the sketch ever sends to the display, in any run from
    boot, is between 110 and 5100 (so it fits the four digits and is never
    negative), and it is sent with the colon on and leading zeros. *)
Theorem display_always_in_range (inputs : list input) :
  Forall (fun te => display_event_ok (snd te)) (log (run inputs boot)).
Proof.
  assert (H : forall m, reachable m -> delay_inv m /\ display_inv m).
  { apply reachable_invariant.
    - split; [exact (delay_inv_reachable boot (ex_intro _ [] eq_refl)) |].
      unfold display_inv. rewrite boot_run. cbn [log].
      repeat constructor.
    - intros i m [Hd Hs]. split.
      + apply delay_inv_step; assumption.
      + apply display_inv_step; assumption. }
  exact (proj2 (H _ (ex_intro _ inputs eq_refl))).
Qed.

End MachineInvariants.

(** ** The main loop, run sequentially *)

Section MainLoop.

(** X1: the test of line 84 depends only on the difference of the two
    millisecond counts modulo 2^32.  So it is exact across the roll-over of
    [millis()]: as long as less than 2^32 ms lie between the stamp and the
    test, it passes exactly when more than 500 ms have passed (at 500 ms it
    still fails).  When 2^32 ms or more have passed it compares the
    remainder: a press that comes [2^32 + r] ms after the stamp with
    [r <= 500] is refused. *)
Theorem debounce_test_modulo (now stamped : Z) :
  debounce_elapsed (to_ulong now) (to_ulong stamped) =
    ((now - stamped) mod 2 ^ 32 >? 500) /\
  (0 <= now - stamped < 2 ^ 32 ->
   debounce_elapsed (to_ulong now) (to_ulong stamped) = (now - stamped >? 500)) /\
  (forall r, 0 <= r <= 500 -> now - stamped = 2 ^ 32 + r ->
             debounce_elapsed (to_ulong now) (to_ulong stamped) = false).
Proof.
  assert (H : debounce_elapsed (to_ulong now) (to_ulong stamped) =
              ((now - stamped) mod 2 ^ 32 >? 500)).
  { unfold debounce_elapsed.
    rewrite (to_ulong_small DEBOUNCE_MS) by (unfold DEBOUNCE_MS; lia).
    unfold to_ulong, DEBOUNCE_MS.
    rewrite Zminus_mod_idemp_l, Zminus_mod_idemp_r. reflexivity. }
  split; [exact H |]. split.
  - intros Hd. rewrite H, Z.mod_small by lia. reflexivity.
  - intros r Hr Hd. rewrite H, Hd.
    replace (2 ^ 32 + r) with (r + 1 * 2 ^ 32) by lia.
    rewrite Z.mod_add by lia. rewrite Z.mod_small by lia.
    rewrite Z.gtb_ltb. apply Z.ltb_ge. lia.
Qed.

Lemma debounce_test_modulo_witness :
  debounce_elapsed (to_ulong 100) (to_ulong 4294967196) = (100 - 4294967196 + 2 ^ 32 >? 500) /\
  debounce_elapsed (to_ulong 1500) (to_ulong 1000) = (1500 - 1000 >? 500) /\
  debounce_elapsed (to_ulong (2 ^ 32 + 400)) (to_ulong 0) = false.
Proof.
  split; [| split].
  - rewrite (proj1 (debounce_test_modulo 100 4294967196)). reflexivity.
  - apply (proj1 (proj2 (debounce_test_modulo 1500 1000))). lia.
  - apply (proj2 (proj2 (debounce_test_modulo (2 ^ 32 + 400) 0)) 400); lia.
Defined.

(** Field accesses on updated states. *)
Ltac state_fields :=
  cbn [zeroCrossDetected firingDelay weldingActive setTimeVal setPowerVal lastWeldTime
       triac footSw potTime potPower clock
       set_firingDelay set_weldingActive set_setTimeVal set_setPowerVal
       set_lastWeldTime set_triac set_inputs advance].

Lemma loop_session_count (s : state) :
  session_count (result_trace (loop s)) =
  if negb (footSw s) && debounce_elapsed (to_ulong (clock s / 1000)) (lastWeldTime s)
  then 1%nat else 0%nat.
Proof.
  rewrite loop_run. cbv zeta.
  destruct (footSw s); [reflexivity |].
  destruct (debounce_elapsed (to_ulong (clock s / 1000)) (lastWeldTime s)); reflexivity.
Qed.

(** X2: one turn of [loop] starts a weld session exactly when the foot
    switch reads LOW and the test of line 84 passes, and then it starts
    exactly one.  Otherwise the turn leaves the flag, the triac pin,
    [lastWeldTime] and the clock as they were.  When a session runs, its
    duration comes from the time potentiometer as read in this same turn,
    the turn ends with the flag clear and the pin low, and [lastWeldTime] is
    the millisecond count at the end of the session. *)
Theorem loop_starts_a_session_iff (s : state) :
  let go := negb (footSw s) &&
            debounce_elapsed (to_ulong (clock s / 1000)) (lastWeldTime s) in
  session_count (result_trace (loop s)) = (if go then 1%nat else 0%nat) /\
  (go = false ->
   weldingActive (result_state (loop s)) = weldingActive s /\
   triac (result_state (loop s)) = triac s /\
   lastWeldTime (result_state (loop s)) = lastWeldTime s /\
   clock (result_state (loop s)) = clock s) /\
  (go = true ->
   weldingActive (result_state (loop s)) = false /\
   triac (result_state (loop s)) = LOW /\
   clock (result_state (loop s)) =
     clock s + 1000 * weldDurationOf (timeLevelOf (potTime s mod 1024)) /\
   lastWeldTime (result_state (loop s)) =
     to_ulong (clock (result_state (loop s)) / 1000)).
Proof.
  intros go. split; [apply loop_session_count |].
  subst go. rewrite loop_run. cbv zeta.
  destruct (footSw s); cbn [negb andb].
  - split; [| intros H; discriminate H]. intros _.
    unfold result_state. cbn [fst snd]. state_fields. repeat split.
  - destruct (debounce_elapsed (to_ulong (clock s / 1000)) (lastWeldTime s)).
    + split; [intros H; discriminate H |]. intros _.
      unfold result_state. cbn [fst snd]. state_fields. repeat split.
    + split; [| intros H; discriminate H]. intros _.
      unfold result_state. cbn [fst snd]. state_fields. repeat split.
Qed.

Lemma loop_starts_a_session_iff_witness :
  let released := set_inputs 0 0 HIGH (result_state (setup power_on)) in
  let pressed := set_inputs 0 0 LOW (result_state (setup power_on)) in
  clock (result_state (loop released)) = clock released /\
  weldingActive (result_state (loop pressed)) = false /\
  session_count (result_trace (loop pressed)) = 1%nat.
Proof.
  intros released pressed.
  destruct (loop_starts_a_session_iff released) as (_ & H0 & _).
  destruct (loop_starts_a_session_iff pressed) as (Hc & _ & H1).
  split; [| split].
  - apply H0. vm_compute. reflexivity.
  - apply H1. vm_compute. reflexivity.
  - exact Hc.
Defined.

Lemma setup_run (s : state) :
  setup s =
  (tt, advance (1000 * 1000) (set_triac LOW s),
   [PinMode PIN_TRIAC OUTPUT; DigitalWrite PIN_TRIAC LOW;
    PinMode PIN_FOOT_SW INPUT_PULLUP; PinMode PIN_ZERO_CROSS INPUT;
    AttachInterrupt PIN_ZERO_CROSS RISING; SetBrightness 0x0f;
    SetSegments [ Z.lor SEG_B (Z.lor SEG_C (Z.lor SEG_E (Z.lor SEG_F SEG_G)));
                  Z.lor SEG_E SEG_F; 0; 0 ]; Delay 1000]).
Proof. reflexivity. Qed.

(** X3: there is no debounce at power-up.  [lastWeldTime] starts at 0 and
    [setup] waits 1000 ms, more than [DEBOUNCE_MS]; so with the foot switch
    held down while the board starts, the first turn of [loop] starts a weld
    session, with the triac pin low until then. *)
Theorem switch_held_at_power_up (s0 : state) (a0 a1 : Z) :
  lastWeldTime s0 = 0 ->
  0 <= clock s0 -> clock s0 / 1000 + 1000 < 2 ^ 32 ->
  triac (result_state (setup s0)) = LOW /\
  session_count
    (result_trace (loop (set_inputs a0 a1 LOW (result_state (setup s0))))) = 1%nat.
Proof.
  intros Hl Hc0 Hc1. rewrite setup_run. unfold result_state at 1 2. cbn [fst snd].
  split; [reflexivity |].
  rewrite loop_session_count. state_fields. rewrite Hl. cbn [negb LOW andb].
  assert (Hms : (clock s0 + 1000 * 1000) / 1000 = clock s0 / 1000 + 1000).
  { rewrite Z.div_add by lia. reflexivity. }
  rewrite Hms.
  assert (H0 : 0 <= clock s0 / 1000) by (apply Z.div_pos; lia).
  assert (Hd : debounce_elapsed (to_ulong (clock s0 / 1000 + 1000)) 0 = true).
  { unfold debounce_elapsed.
    rewrite (to_ulong_small DEBOUNCE_MS) by (unfold DEBOUNCE_MS; lia).
    rewrite Z.sub_0_r. unfold to_ulong. rewrite Z.mod_mod by lia.
    rewrite Z.mod_small by lia. apply Z.gtb_lt. unfold DEBOUNCE_MS. lia. }
  rewrite Hd. reflexivity.
Qed.

Lemma switch_held_at_power_up_witness :
  session_count
    (result_trace (loop (set_inputs 512 512 LOW (result_state (setup power_on))))) = 1%nat.
Proof.
  apply (switch_held_at_power_up power_on 512 512); vm_compute; congruence.
Defined.

End MainLoop.

(** ** Settings and display *)

Section Controls.

(** Updates of a state given by its fields. *)
Ltac state_record :=
  cbv [zeroCrossDetected firingDelay weldingActive setTimeVal setPowerVal lastWeldTime
       triac footSw potTime potPower clock
       set_firingDelay set_weldingActive set_setTimeVal set_setPowerVal
       set_lastWeldTime set_triac set_inputs advance].

(** X4: the settings follow the potentiometers.  Over the readings 0..1023
    neither setting goes down when its reading goes up, and the firing delay
    does not go up when the power reading does.  The scale starts at time
    level 1 and power 10 (reading 0) and, the division of [map] rounding
    down, reaches its top (time level 50, power 100) at reading 1023 only. *)
Theorem settings_follow_the_pots (r1 r2 : Z) :
  0 <= r1 -> r1 <= r2 -> r2 <= 1023 ->
  timeLevelOf r1 <= timeLevelOf r2 /\
  powerPercentOf r1 <= powerPercentOf r2 /\
  computeFiring (powerPercentOf r2) <= computeFiring (powerPercentOf r1) /\
  timeLevelOf 0 = 1 /\ powerPercentOf 0 = 10 /\
  (timeLevelOf r2 = 50 <-> r2 = 1023) /\
  (powerPercentOf r2 = 100 <-> r2 = 1023).
Proof.
  intros H0 H12 H2.
  pose proof (powerPercentOf_range r1 ltac:(lia)) as Hp1.
  pose proof (powerPercentOf_range r2 ltac:(lia)) as Hp2.
  assert (Ht : timeLevelOf r1 <= timeLevelOf r2).
  { rewrite !timeLevelOf_exact by lia. apply Z.add_le_mono_r.
    apply Z.div_le_mono; lia. }
  assert (Hp : powerPercentOf r1 <= powerPercentOf r2).
  { rewrite !powerPercentOf_exact by lia. apply Z.add_le_mono_r.
    apply Z.div_le_mono; lia. }
  split; [exact Ht |]. split; [exact Hp |]. split.
  { rewrite !computeFiring_exact by lia. apply Z.add_le_mono_r.
    apply Z.div_le_mono; lia. }
  split; [reflexivity |]. split; [reflexivity |].
  rewrite timeLevelOf_exact, powerPercentOf_exact by lia.
  split; split; intros H; subst; try reflexivity.
  - assert (r2 * 49 / 1023 = 49) as E by lia.
    destruct (Z.eq_dec r2 1023) as [| Hne]; [assumption | exfalso].
    assert (r2 * 49 / 1023 < 49) by (apply Z.div_lt_upper_bound; lia). lia.
  - assert (r2 * 90 / 1023 = 90) as E by lia.
    destruct (Z.eq_dec r2 1023) as [| Hne]; [assumption | exfalso].
    assert (r2 * 90 / 1023 < 90) by (apply Z.div_lt_upper_bound; lia). lia.
Qed.

Lemma settings_follow_the_pots_witness :
  timeLevelOf 1022 <= timeLevelOf 1023 /\ timeLevelOf 1022 = 49 /\
  computeFiring (powerPercentOf 1023) <= computeFiring (powerPercentOf 1022).
Proof.
  destruct (settings_follow_the_pots 1022 1023 ltac:(lia) ltac:(lia) ltac:(lia))
    as (Ht & _ & Hf & _).
  split; [exact Ht |]. split; [vm_compute; reflexivity | exact Hf].
Defined.

(** X5: [readPotentiometers] overwrites the three settings from the two
    potentiometers alone: whatever the settings were before, the result is
    the same, and a second call with the potentiometers unmoved changes
    nothing and stores the same firing delay again. *)
Theorem readPotentiometers_idempotent (s : state) :
  readPotentiometers (result_state (readPotentiometers s)) =
    (tt, result_state (readPotentiometers s), result_trace (readPotentiometers s)) /\
  forall tv pv fd,
    readPotentiometers (set_firingDelay fd (set_setPowerVal pv (set_setTimeVal tv s))) =
    readPotentiometers s.
Proof.
  destruct s as [z fd0 wa tv0 pv0 lw tr fs pt pp c]. split.
  - rewrite (readPotentiometers_run (mkState z fd0 wa tv0 pv0 lw tr fs pt pp c)).
    unfold result_state, result_trace. cbn [fst snd].
    rewrite readPotentiometers_run. state_record. reflexivity.
  - intros tv pv fd. rewrite !readPotentiometers_run. state_record. reflexivity.
Qed.

(** X6: what the four digits show.  For a time level in [1,50] and a power in
    [10,100] the number sent to the display is between 110 and 5100 and
    determines both settings.  Below power 100 the left two digits are the
    time level and the right two the power, as the comment of line 109 says;
    at power 100 the hundred carries: the right digits read 00 and the left
    digits read the time level plus one. *)
Theorem display_digits (t p : Z) :
  1 <= t <= 50 -> 10 <= p <= 100 ->
  110 <= dispNumOf t p <= 5100 /\
  (p < 100 -> dispNumOf t p / 100 = t /\ dispNumOf t p mod 100 = p) /\
  (p = 100 -> dispNumOf t p / 100 = t + 1 /\ dispNumOf t p mod 100 = 0) /\
  (forall t' p', 1 <= t' <= 50 -> 10 <= p' <= 100 ->
                 dispNumOf t' p' = dispNumOf t p -> t' = t /\ p' = p).
Proof.
  intros Ht Hp.
  rewrite dispNumOf_exact by (unfold INT_MIN, INT_MAX; lia).
  split; [lia |]. split; [| split].
  - intros Hlt. split.
    + symmetry. apply (Z.div_unique _ 100 t p); lia.
    + symmetry. apply (Z.mod_unique _ 100 t p); lia.
  - intros ->. split.
    + symmetry. apply (Z.div_unique _ 100 (t + 1) 0); lia.
    + symmetry. apply (Z.mod_unique _ 100 (t + 1) 0); lia.
  - intros t' p' Ht' Hp'.
    rewrite dispNumOf_exact by (unfold INT_MIN, INT_MAX; lia). lia.
Qed.

Lemma display_digits_witness :
  dispNumOf 10 99 / 100 = 10 /\ dispNumOf 10 99 mod 100 = 99 /\
  dispNumOf 10 100 / 100 = 11 /\ dispNumOf 10 100 mod 100 = 0.
Proof.
  destruct (display_digits 10 99 ltac:(lia) ltac:(lia)) as (_ & H1 & _).
  destruct (display_digits 10 100 ltac:(lia) ltac:(lia)) as (_ & _ & H2 & _).
  destruct (H1 ltac:(lia)) as [Ha Hb]. destruct (H2 eq_refl) as [Hc Hd].
  repeat split; assumption.
Defined.

End Controls.
